(** * Recipe layer of llm-compressor: a shallow embedding

    Source: [src/llmcompressor/recipe/recipe.py].

    Python data is embedded as follows.
    - JSON / YAML documents are trees of type [value]; a Python [dict] is an
      insertion-ordered association list [dict] (key order is observable:
      stage order is the key order of the parsed mapping).  Keys are strings,
      as in the annotation [Dict[str, Any]], and a dictionary holds a key once
      ([wf_dict]).  Documents are trees: two keys never hold the same mutable
      object.
    - An exception is a value [Err e] of the type [result]; [e] names the
      Python exception class raised by the source line, and [ValidationError]
      the failure of the typed validation of a field.  Subclassing between
      exception classes is not modelled.
    - [json.loads], [yaml.safe_load] and the file system belong to the
      environment of the program; they are the fields of [Env].  The YAML text
      of a mapping is read back as that mapping.
    - [RecipeStage], [RecipeModifier] and [RecipeStage.extract_dict_modifiers]
      live in modules that are not part of the sources; their definitions
      below follow the specification and say so.
    - Characters are the ASCII code points. *)

From Stdlib Require Import String Ascii List Bool Arith ZArith Lia.
From Stdlib Require Import Permutation PrimFloat.
From Stdlib Require Import DecimalString DecimalNat.
Import ListNotations.
Open Scope string_scope.
Open Scope list_scope.

(** ** Exceptions *)

Inductive error : Set :=
| AssertionError
| TypeError
| ValueError
| RuntimeError
| AttributeError
| KeyError
| YAMLError
| ValidationError.

Inductive result (A : Type) : Type :=
| Ok (a : A)
| Err (e : error).

Arguments Ok {A} a.
Arguments Err {A} e.

Definition bind {A B : Type} (m : result A) (k : A -> result B) : result B :=
  match m with
  | Ok a => k a
  | Err e => Err e
  end.

Notation "x <- m ;; k" := (bind m (fun x => k))
  (at level 61, m at next level, right associativity).
Notation "' p <- m ;; k" := (bind m (fun x => match x with p => k end))
  (at level 61, p pattern, m at next level, right associativity).

Fixpoint mapM {A B : Type} (f : A -> result B) (l : list A) : result (list B) :=
  match l with
  | [] => Ok []
  | a :: l' => b <- f a ;; bs <- mapM f l' ;; Ok (b :: bs)
  end.

Fixpoint foldM {A S : Type} (f : S -> A -> result S) (l : list A) (s : S)
  : result S :=
  match l with
  | [] => Ok s
  | a :: l' => s' <- f s a ;; foldM f l' s'
  end.

(** ** Strings *)

(** [s.endswith(suffix)] *)
Fixpoint endswith (s suffix : string) : bool :=
  String.eqb s suffix ||
  match s with
  | EmptyString => false
  | String _ s' => endswith s' suffix
  end.

(** [sub in s] on two strings: substring test. *)
Fixpoint str_contains (s sub : string) : bool :=
  String.prefix sub s ||
  match s with
  | EmptyString => false
  | String _ s' => str_contains s' sub
  end.

(** The part of [s] before the rightmost occurrence of [sep], when there is
    one. *)
Fixpoint rfind_head (sep s : string) : option string :=
  match s with
  | EmptyString => if String.eqb sep "" then Some "" else None
  | String c s' =>
      match rfind_head sep s' with
      | Some h => Some (String c h)
      | None => if String.prefix sep s then Some "" else None
      end
  end.

(** [s.rsplit(sep, 1)[0]] *)
Definition rsplit1_head (s sep : string) : string :=
  match rfind_head sep s with
  | Some h => h
  | None => s
  end.

(** [f"{n}"] for a non-negative int. *)
Definition str_of_nat (n : nat) : string :=
  NilEmpty.string_of_uint (Nat.to_uint n).


(** ** Documents *)

Local Unset Elimination Schemes.

Inductive value : Type :=
| VNone
| VBool (b : bool)
| VInt (z : Z)
| VFloat (f : float)
| VStr (s : string)
| VList (l : list value)
| VDict (d : list (string * value)).

Local Set Elimination Schemes.

Definition dict : Type := list (string * value).

(** Python truth value of a document. *)
Definition truthy (v : value) : bool :=
  match v with
  | VNone => false
  | VBool b => b
  | VInt z => negb (Z.eqb z 0)
  | VFloat f => negb (PrimFloat.eqb f 0%float)
  | VStr s => negb (String.eqb s "")
  | VList l => match l with [] => false | _ => true end
  | VDict d => match d with [] => false | _ => true end
  end.

Section Dict.
Variable V : Type.

(** [d.get(k)] *)
Fixpoint dict_get (k : string) (d : list (string * V)) : option V :=
  match d with
  | [] => None
  | (k', v) :: d' => if String.eqb k k' then Some v else dict_get k d'
  end.

(** [k in d] *)
Definition dict_mem (k : string) (d : list (string * V)) : bool :=
  match dict_get k d with Some _ => true | None => false end.

(** [d[k] = v]: an existing key keeps its position. *)
Fixpoint dict_set (k : string) (v : V) (d : list (string * V))
  : list (string * V) :=
  match d with
  | [] => [(k, v)]
  | (k', v') :: d' =>
      if String.eqb k k' then (k, v) :: d' else (k', v') :: dict_set k v d'
  end.

Fixpoint dict_remove (k : string) (d : list (string * V))
  : list (string * V) :=
  match d with
  | [] => []
  | (k', v') :: d' =>
      if String.eqb k k' then d' else (k', v') :: dict_remove k d'
  end.

(** [del d[k]] *)
Definition dict_del (k : string) (d : list (string * V))
  : result (list (string * V)) :=
  if dict_mem k d then Ok (dict_remove k d) else Err KeyError.

(** [d.update(d2)], also [{**d, **d2}] *)
Definition dict_update (d d2 : list (string * V)) : list (string * V) :=
  fold_left (fun acc kv => dict_set (fst kv) (snd kv) acc) d2 d.

Definition keys (d : list (string * V)) : list string := map fst d.

(** Python dicts hold a key once. *)
Definition wf_dict (d : list (string * V)) : Prop := NoDup (keys d).
End Dict.

Arguments dict_get {V} k d.
Arguments dict_mem {V} k d.
Arguments dict_set {V} k v d.
Arguments dict_remove {V} k d.
Arguments dict_del {V} k d.
Arguments dict_update {V} d d2.
Arguments keys {V} d.
Arguments wf_dict {V} d.

(** [args = {}; for key, val in values.items(): args[key] = val] *)
Definition dict_copy {V : Type} (d : list (string * V)) : list (string * V) :=
  dict_update [] d.

(** ** The typed Recipe tree *)

(** Modelled from the spec: [RecipeModifier] (llmcompressor.recipe.modifier is
    not part of the sources).  Spec 3, ModifierDescriptor:
    [{type: string, group: string, args: mapping<string, any>}]. *)
Record RecipeModifier : Type := mkRecipeModifier {
  m_type : string;
  m_group : string;
  m_args : dict
}.

(** Modelled from the spec: [RecipeStage] (llmcompressor.recipe.stage is not
    part of the sources).  Spec 3, Stage: [{group: string, run_type:
    optional<string>, modifiers: ordered-list<ModifierDescriptor>}]; the
    positional [index] is assigned at materialization and is not part of the
    tree. *)
Record RecipeStage : Type := mkRecipeStage {
  s_group : string;
  s_run_type : option string;
  s_modifiers : list RecipeModifier
}.

(** recipe.py, lines 224-226: the fields of [Recipe]. *)
Record Recipe : Type := mkRecipe {
  version : option string;
  args : dict;
  stages : list RecipeStage
}.

(** A live [Modifier] object (llmcompressor.modifiers), seen through the two
    things [from_modifiers] reads: [modifier.__class__.__name__] and
    [modifier.model_dump(exclude_unset=True)]. *)
Record Modifier : Type := mkModifier {
  class_name : string;
  model_dump_set : dict
}.

(** ** Raw forms and their validation *)

(** Modelled from the spec: the canonical raw form of a ModifierDescriptor,
    spec 6: [{"type": string, "group": string, "args": {...}}]. *)
Definition modifier_dict (t g : string) (a : value) : value :=
  VDict [("type", VStr t); ("group", VStr g); ("args", a)].

(** Modelled from the spec: validation of a raw ModifierDescriptor by
    [RecipeModifier]; the three fields of the canonical shape of spec 6 with
    their types, anything else is rejected. *)
Definition RecipeModifier_validate (v : value) : result RecipeModifier :=
  match v with
  | VDict d =>
      match dict_get "type" d, dict_get "group" d, dict_get "args" d with
      | Some (VStr t), Some (VStr g), Some (VDict a) =>
          Ok (mkRecipeModifier t g a)
      | _, _, _ => Err ValidationError
      end
  | _ => Err ValidationError
  end.

Definition is_modifiers_key (k : string) : bool :=
  String.eqb k "modifiers" || endswith k "_modifiers".

Definition modifiers_key_group (k : string) : string :=
  if String.eqb k "modifiers" then "default" else rsplit1_head k "_modifiers".

(** Modelled from the spec: [RecipeStage.extract_dict_modifiers], which is
    called by [remap_stages] and [extract_dict_stages] but is not part of the
    sources.  Spec 4.2, shapes (1) and (4): the key [modifiers] contributes
    descriptors of group "default", every key ending in [_modifiers]
    contributes descriptors tagged with the group named by stripping that
    suffix; the value under such a key is a mapping from modifier type name to
    argument mapping; each source key is consumed and removed.  Returns the
    descriptors and the mapping left. *)
Definition extract_dict_modifiers (values : dict) : result (list value * dict) :=
  groups <- mapM (fun kv : string * value =>
                    if is_modifiers_key (fst kv) then
                      match snd kv with
                      | VDict m =>
                          Ok (map (fun ta : string * value =>
                                     modifier_dict (fst ta)
                                       (modifiers_key_group (fst kv)) (snd ta))
                                m)
                      | _ => Err ValidationError
                      end
                    else Ok [])
                 values ;;
  Ok (concat groups,
      filter (fun kv : string * value => negb (is_modifiers_key (fst kv)))
        values).

(** Modelled from the spec: spec 3, "[run_type] is inferred from group name
    when it is exactly "oneshot" or "train", else left unset". *)
Definition infer_run_type (group : string) : option string :=
  if String.eqb group "oneshot" || String.eqb group "train"
  then Some group else None.

(** Modelled from the spec: validation of a raw stage body by [RecipeStage].
    The body carries its [group]; a [modifiers] list holds descriptors in
    canonical form (the default stage built by [remap_stages]), otherwise the
    modifier-group shorthand of spec 4.2 (4) is extracted; [run_type] is the
    one set in the body, else the one inferred from the group. *)
Definition RecipeStage_validate (v : value) : result RecipeStage :=
  match v with
  | VDict body =>
      match dict_get "group" body with
      | Some (VStr g) =>
          raw <- match dict_get "modifiers" body with
                 | Some (VList l) => Ok l
                 | _ => '(ms, _) <- extract_dict_modifiers body ;; Ok ms
                 end ;;
          ms <- mapM RecipeModifier_validate raw ;;
          let rt := match dict_get "run_type" body with
                    | Some (VStr r) => Some r
                    | _ => infer_run_type g
                    end in
          Ok (mkRecipeStage g rt ms)
      | _ => Err ValidationError
      end
  | _ => Err ValidationError
  end.

(** ** Structural normalization (recipe.py, lines 259-364) *)

Definition default_stage (modifiers : list value) : value :=
  VDict [("modifiers", VList modifiers); ("group", VStr "default")].

(** lines 344-353: the [stages] key. *)
Definition extract_explicit_stages (values : dict)
  : result (list value * list string) :=
  match dict_get "stages" values with
  | Some sv =>
      if truthy sv then
        match sv with
        | VDict sd =>
            entries <- mapM (fun kv : string * value =>
                               match snd kv with
                               | VDict body =>
                                   Ok (VDict (dict_set "group" (VStr (fst kv)) body))
                               | _ => Err AssertionError
                               end) sd ;;
            Ok (entries, ["stages"])
        | _ => Err AssertionError
        end
      else Ok ([], [])
  | None => Ok ([], [])
  end.

(** lines 355-359: one step of the loop over [list(values.items())]. *)
Definition suffix_stage_step (acc : list value * list string)
  (kv : string * value) : result (list value * list string) :=
  if endswith (fst kv) "_stage" then
    match snd kv with
    | VDict body =>
        Ok (fst acc ++
              [VDict (dict_set "group"
                        (VStr (rsplit1_head (fst kv) "_stage")) body)],
            snd acc ++ [fst kv])
    | _ => Err TypeError
    end
  else Ok acc.

(** [Recipe.extract_dict_stages]: the stages found and [values] after the
    consumed keys are deleted. *)
Definition extract_dict_stages (values : dict) : result (list value * dict) :=
  '(default_modifiers, values) <- extract_dict_modifiers values ;;
  let stages :=
    if truthy (VList default_modifiers)
    then [default_stage default_modifiers] else [] in
  '(explicit, remove_keys) <- extract_explicit_stages values ;;
  let stages := stages ++ explicit in
  '(stages, remove_keys) <-
     foldM suffix_stage_step values (stages, remove_keys) ;;
  values <- foldM (fun d key => dict_del key d) remove_keys values ;;
  Ok (stages, values).

(** [Recipe.remap_stages], the pre-validation hook. *)
Definition remap_stages (values : dict) : result dict :=
  '(modifiers, values) <- extract_dict_modifiers values ;;
  let stages :=
    if truthy (VList modifiers) then [default_stage modifiers] else [] in
  '(extracted, values) <- extract_dict_stages values ;;
  let stages := stages ++ extracted in
  let formatted_values := dict_set "stages" (VList stages) [] in
  let args := dict_copy values in
  let formatted_values := dict_set "args" (VDict args) formatted_values in
  Ok formatted_values.

(** Population of the typed fields of [Recipe] from the normalized mapping:
    [version: str = None], [args: Dict[str, Any]], [stages:
    List[RecipeStage]], each with its default when the key is absent. *)
Definition Recipe_fields (formatted_values : dict) : result Recipe :=
  v <- match dict_get "version" formatted_values with
       | None => Ok None
       | Some (VStr s) => Ok (Some s)
       | Some _ => Err ValidationError
       end ;;
  a <- match dict_get "args" formatted_values with
       | None => Ok []
       | Some (VDict a) => Ok a
       | Some _ => Err ValidationError
       end ;;
  s <- match dict_get "stages" formatted_values with
       | None => Ok []
       | Some (VList l) => mapM RecipeStage_validate l
       | Some _ => Err ValidationError
       end ;;
  Ok (mkRecipe v a s).

(** [Recipe.model_validate(obj)] for a mapping [obj]. *)
Definition model_validate (obj : dict) : result Recipe :=
  formatted_values <- remap_stages obj ;;
  Recipe_fields formatted_values.

(** [Recipe()] *)
Definition Recipe_new : result Recipe := model_validate [].

(** ** Front matter (recipe.py, lines 476-502) *)

(** [\s] of Python's [re] on the ASCII range, also the characters removed by
    [str.strip()]. *)
Definition is_space (c : ascii) : bool :=
  let n := nat_of_ascii c in
  ((9 <=? n)%nat && (n <=? 13)%nat) || ((28 <=? n)%nat && (n <=? 32)%nat).

(** [(?:---|\+\+\+)] at the head of [s]. *)
Definition is_delim_prefix (s : string) : bool :=
  String.prefix "---" s || String.prefix "+++" s.

Definition drop3 (s : string) : string :=
  match s with
  | String _ (String _ (String _ r)) => r
  | _ => ""
  end.

(** [(.*?)(?:---|\+\+\+)] with [re.S]: the shortest text followed by a
    delimiter; the result is group 1. *)
Fixpoint lazy_until_delim (s : string) : option string :=
  if is_delim_prefix s then Some ""
  else match s with
       | EmptyString => None
       | String c s' => option_map (String c) (lazy_until_delim s')
       end.

(** [(?:---|\+\+\+)(.*?)(?:---|\+\+\+)] at the head of [s]. *)
Definition match_block (s : string) : option string :=
  if is_delim_prefix s then lazy_until_delim (drop3 s) else None.

(** [\s*] followed by the block: greedy, backtracking to fewer blanks. *)
Fixpoint match_here (s : string) : option string :=
  match s with
  | String c s' =>
      if is_space c then
        match match_here s' with
        | Some g => Some g
        | None => match_block s
        end
      else match_block s
  | EmptyString => match_block s
  end.

(** [regex.search]: positions from left to right; with [re.M] the anchor [^]
    holds at the start of the text and after each newline ([bol]). *)
Fixpoint search_from (bol : bool) (s : string) : option string :=
  match (if bol then match_here s else None) with
  | Some g => Some g
  | None =>
      match s with
      | EmptyString => None
      | String c s' => search_from (Ascii.eqb c (ascii_of_nat 10)) s'
      end
  end.

Definition regex_search (s : string) : option string := search_from true s.

(** [_parse_recipe_from_md(file_path, yaml_str)] *)
Definition _parse_recipe_from_md (file_path yaml_str : string) : result string :=
  match regex_search yaml_str with
  | Some group1 => Ok group1
  | None => Err RuntimeError
  end.

(** ** Ingestion (recipe.py, lines 34-160 and 457-473) *)

Record Env : Type := mkEnv {
  json_loads : string -> option value;      (* None: json.JSONDecodeError *)
  yaml_safe_load : string -> option value;  (* None: yaml.YAMLError *)
  os_path_isfile : string -> bool;
  read_file : string -> string
}.

(** Objects that may be passed where a recipe is expected. *)
Inductive elem : Type :=
| EStr (s : string)
| ERecipe (r : Recipe)
| EModifier (m : Modifier).

(** [RecipeInput], line 452; a Python list may hold any mix of objects. *)
Inductive RecipeInput : Type :=
| InStr (s : string)
| InRecipe (r : Recipe)
| InModifier (m : Modifier)
| InList (l : list elem).

(** [RecipeStageInput], line 453 *)
Inductive RecipeStageInput : Type :=
| TStr (s : string)
| TList (l : list string)
| TListList (l : list (list string)).

(** [RecipeArgsInput], line 454 *)
Inductive RecipeArgsInput : Type :=
| ADict (d : dict)
| AList (l : list dict).

Fixpoint lstrip (s : string) : string :=
  match s with
  | String c s' => if is_space c then lstrip s' else s
  | EmptyString => ""
  end.

Fixpoint rstrip (s : string) : string :=
  match s with
  | String c s' =>
      match rstrip s' with
      | EmptyString => if is_space c then "" else String c ""
      | r => String c r
      end
  | EmptyString => ""
  end.

(** [s.strip()] *)
Definition strip (s : string) : string := rstrip (lstrip s).

Definition lower_ascii (c : ascii) : ascii :=
  let n := nat_of_ascii c in
  if (65 <=? n)%nat && (n <=? 90)%nat then ascii_of_nat (n + 32) else c.

(** [s.lower()] *)
Fixpoint lower (s : string) : string :=
  match s with
  | String c s' => String (lower_ascii c) (lower s')
  | EmptyString => ""
  end.

Definition is_dict (v : value) : bool :=
  match v with VDict _ => true | _ => false end.

Section Ingestion.
Variable env : Env.


(** [_load_json_or_yaml_string(content)] *)
Definition _load_json_or_yaml_string (content : string) : result dict :=
  ret <- match json_loads env content with
         | Some ret => Ok ret
         | None =>
             match yaml_safe_load env content with
             | Some ret => Ok ret
             | None => Err ValueError
             end
         end ;;
  match ret with
  | VDict d => Ok d
  | _ => Err ValueError
  end.

(** [Recipe.model_validate(obj)] for any parsed document. *)
Definition model_validate_obj (obj : value) : result Recipe :=
  match obj with
  | VDict d => model_validate d
  | _ => Err ValidationError
  end.

(** Modelled from the spec: construction [RecipeStage(group=...,
    modifiers=...)]; the run type is inferred from the group (spec 3). *)
Definition RecipeStage_new (group : string) (modifiers : list RecipeModifier)
  : RecipeStage :=
  mkRecipeStage group (infer_run_type group) modifiers.

Definition as_modifier (e : elem) : result Modifier :=
  match e with
  | EModifier m => Ok m
  | _ => Err ValueError
  end.

Definition is_modifier (e : elem) : bool :=
  match e with EModifier _ => true | _ => false end.

(** [Recipe.from_modifiers] on a list *)
Definition from_modifiers (modifiers : list elem)
  (modifier_group_name : option string) : result Recipe :=
  modifiers <- mapM as_modifier modifiers ;;
  let group_name :=
    match modifier_group_name with
    | Some n => if String.eqb n "" then "default" else n
    | None => "default"
    end in
  let recipe_modifiers :=
    map (fun m => mkRecipeModifier (class_name m) group_name
                    (model_dump_set m)) modifiers in
  let stages := [RecipeStage_new group_name recipe_modifiers] in
  recipe <- Recipe_new ;;
  Ok (mkRecipe (version recipe) (args recipe) stages).

(** [Recipe.create_instance] *)
Definition create_instance (path_or_modifiers : RecipeInput)
  (modifier_group_name : option string) : result Recipe :=
  match path_or_modifiers with
  | InRecipe r => Ok r
  | InModifier m => from_modifiers [EModifier m] modifier_group_name
  | InList l => from_modifiers l modifier_group_name
  | InStr path =>
      if negb (os_path_isfile env path) then
        obj <- _load_json_or_yaml_string path ;;
        model_validate obj
      else
        let content := strip (read_file env path) in
        content <- (if endswith (lower path) ".md"
                    then _parse_recipe_from_md path content
                    else Ok content) ;;
        obj <- (if endswith (lower path) ".json" then
                  match json_loads env content with
                  | Some o => Ok o
                  | None => Err ValueError (* json.JSONDecodeError *)
                  end
                else if endswith (lower path) ".yaml"
                        || endswith (lower path) ".yml" then
                  match yaml_safe_load env content with
                  | Some o => Ok o
                  | None => Err YAMLError
                  end
                else
                  match _load_json_or_yaml_string content with
                  | Ok d => Ok (VDict d)
                  | Err ValueError => Err ValueError
                  | Err e => Err e
                  end) ;;
        model_validate_obj obj
  end.
End Ingestion.

(** ** Simplification and combination (recipe.py, lines 162-222) *)

(** [group in target_stage] *)
Definition py_in (group : string) (target_stage : RecipeStageInput) : bool :=
  match target_stage with
  | TStr s => str_contains s group
  | TList l => existsb (String.eqb group) l
  | TListList _ => false
  end.

Definition target_truthy (t : option RecipeStageInput) : bool :=
  match t with
  | None => false
  | Some (TStr s) => negb (String.eqb s "")
  | Some (TList l) => negb (Nat.eqb (length l) 0)
  | Some (TListList l) => negb (Nat.eqb (length l) 0)
  end.

Definition override_truthy (o : option RecipeArgsInput) : bool :=
  match o with
  | None => false
  | Some (ADict d) => negb (Nat.eqb (length d) 0)
  | Some (AList l) => negb (Nat.eqb (length l) 0)
  end.

Section Simplify.
Variable env : Env.

(** lines 181-189: which inputs are turned into a Recipe. *)
Definition prepare_recipe (recipe : RecipeInput) : result RecipeInput :=
  match recipe with
  | InModifier _ | InStr _ =>
      r <- create_instance env recipe None ;; Ok (InRecipe r)
  | InList l =>
      if forallb is_modifier l
      then r <- create_instance env recipe None ;; Ok (InRecipe r)
      else Ok recipe
  | InRecipe _ => Ok recipe
  end.

(** lines 191-194 *)
Definition filter_stages (target_stage : option RecipeStageInput)
  (recipe : RecipeInput) : result RecipeInput :=
  match target_stage with
  | Some t =>
      if target_truthy target_stage then
        match recipe with
        | InRecipe r =>
            Ok (InRecipe
                  (mkRecipe (version r) (args r)
                     (filter (fun stage => py_in (s_group stage) t)
                        (stages r))))
        | _ => Err AttributeError
        end
      else Ok recipe
  | None => Ok recipe
  end.

(** lines 196-197 *)
Definition apply_overrides (override_args : option RecipeArgsInput)
  (recipe : RecipeInput) : result RecipeInput :=
  match override_args with
  | Some o =>
      if override_truthy override_args then
        match recipe with
        | InRecipe r =>
            match o with
            | ADict d =>
                Ok (InRecipe
                      (mkRecipe (version r)
                         (dict_update (dict_copy (args r)) d) (stages r)))
            | AList _ => Err TypeError
            end
        | _ => Err AttributeError
        end
      else Ok recipe
  | None => Ok recipe
  end.

(** [Recipe.simplify_recipe]; the value returned is whatever [recipe] is
    bound to at line 198. *)
Definition simplify_recipe (recipe : option RecipeInput)
  (target_stage : option RecipeStageInput)
  (override_args : option RecipeArgsInput) : result RecipeInput :=
  match recipe with
  | None => r <- Recipe_new ;; Ok (InRecipe r)
  | Some (InList []) => r <- Recipe_new ;; Ok (InRecipe r)
  | Some recipe =>
      recipe <- prepare_recipe recipe ;;
      recipe <- filter_stages target_stage recipe ;;
      recipe <- apply_overrides override_args recipe ;;
      Ok recipe
  end.

(** lines 214-220: the body of the loop. *)
Definition combine_step (combined : Recipe) (recipe : RecipeInput)
  : result Recipe :=
  simplified <- simplify_recipe (Some recipe) None None ;;
  match simplified with
  | InRecipe s =>
      Ok (mkRecipe (version s)
            (dict_update (args combined) (args s))
            (stages combined ++ stages s))
  | _ => Err AttributeError
  end.

(** [Recipe.simplify_combine_recipes] *)
Definition simplify_combine_recipes (recipes : list RecipeInput)
  : result Recipe :=
  combined <- Recipe_new ;;
  foldM combine_step recipes combined.
End Simplify.

(** ** Serialization (recipe.py, lines 366-449 and 505-532) *)

Definition opt_str (o : option string) : value :=
  match o with Some s => VStr s | None => VNone end.

(** [model_dump()] of the typed tree. *)
Definition modifier_dump (m : RecipeModifier) : value :=
  modifier_dict (m_type m) (m_group m) (VDict (m_args m)).

Definition stage_dump (s : RecipeStage) : dict :=
  [("group", VStr (s_group s));
   ("run_type", opt_str (s_run_type s));
   ("modifiers", VList (map modifier_dump (s_modifiers s)))].

(** [d[k]] *)
Definition getitem (k : string) (d : dict) : result value :=
  match dict_get k d with
  | Some v => Ok v
  | None => Err KeyError
  end.

Definition as_str (v : value) : result string :=
  match v with VStr s => Ok s | _ => Err TypeError end.

(** lines 373-380: one stage of the loop of [dict]; [stages] maps a name to
    the list of the stages of that name. *)
Definition dict_stage_step (stages : list (string * list dict)) (stage : dict)
  : result (list (string * list dict)) :=
  g <- getitem "group" stage ;;
  g <- as_str g ;;
  let name := (g ++ "_stage")%string in
  stage <- dict_del "group" stage ;;
  let stages :=
    if negb (dict_mem name stages) then dict_set name [] stages else stages in
  match dict_get name stages with
  | Some l => Ok (dict_set name (l ++ [stage]) stages)
  | None => Err KeyError
  end.

(** The result of [Recipe.dict()]: the dump with [stages] regrouped. *)
Record RecipeDict : Type := mkRecipeDict {
  d_version : value;
  d_args : value;
  d_stages : list (string * list dict)
}.

(** [Recipe.dict] *)
Definition Recipe_dict (r : Recipe) : result RecipeDict :=
  stages <- foldM dict_stage_step (map stage_dump (stages r)) [] ;;
  Ok (mkRecipeDict (opt_str (version r)) (VDict (args r)) stages).

(** One modifier of the loop of [get_yaml_serializable_stage_dict]. *)
Definition serializable_step (stage_dict : dict) (modifier : value)
  : result dict :=
  match modifier with
  | VDict modifier =>
      g <- getitem "group" modifier ;;
      g <- as_str g ;;
      let group_name := (g ++ "_modifiers")%string in
      modifier_type <- getitem "type" modifier ;;
      modifier_type <- as_str modifier_type ;;
      let stage_dict :=
        if negb (dict_mem group_name stage_dict)
        then dict_set group_name (VDict []) stage_dict else stage_dict in
      a <- getitem "args" modifier ;;
      match dict_get group_name stage_dict with
      | Some (VDict inner) =>
          Ok (dict_set group_name (VDict (dict_set modifier_type a inner))
                stage_dict)
      | Some _ => Err TypeError
      | None => Err KeyError
      end
  | _ => Err TypeError
  end.

(** [get_yaml_serializable_stage_dict(modifiers)] *)
Definition get_yaml_serializable_stage_dict (modifiers : list value)
  : result dict :=
  foldM serializable_step modifiers [].

(** [enumerate(l)] *)
Definition enumerate {A : Type} (l : list A) : list (nat * A) :=
  combine (seq 0 (length l)) l.

(** lines 432-447: one stage of one name. *)
Definition yaml_stage_step (stage_name : string) (len : nat)
  (yaml_recipe_dict : dict) (idx_stage : nat * dict) : result dict :=
  let final_stage_name :=
    if (1 <? len)%nat
    then (stage_name ++ "_" ++ str_of_nat (fst idx_stage))%string
    else stage_name in
  modifiers <- getitem "modifiers" (snd idx_stage) ;;
  modifiers <- match modifiers with
               | VList l => Ok l
               | _ => Err TypeError
               end ;;
  stage_dict <- get_yaml_serializable_stage_dict modifiers ;;
  let stage_dict :=
    match dict_get "run_type" (snd idx_stage) with
    | Some run_type =>
        if truthy run_type then dict_set "run_type" run_type stage_dict
        else stage_dict
    | None => stage_dict
    end in
  Ok (dict_set final_stage_name (VDict stage_dict) yaml_recipe_dict).

(** lines 431-447 *)
Definition yaml_name_step (yaml_recipe_dict : dict)
  (entry : string * list dict) : result dict :=
  foldM (yaml_stage_step (fst entry) (length (snd entry)))
    (enumerate (snd entry)) yaml_recipe_dict.

(** lines 425-427 *)
Definition yaml_attribute (attribute : string) (attribute_value : value)
  (yaml_recipe_dict : dict) : dict :=
  if truthy attribute_value
  then dict_set attribute attribute_value yaml_recipe_dict
  else yaml_recipe_dict.

(** [Recipe._get_yaml_dict] *)
Definition _get_yaml_dict (r : Recipe) : result dict :=
  original_recipe_dict <- Recipe_dict r ;;
  let yaml_recipe_dict := [] in
  let yaml_recipe_dict :=
    yaml_attribute "version" (d_version original_recipe_dict)
      yaml_recipe_dict in
  let yaml_recipe_dict :=
    yaml_attribute "args" (d_args original_recipe_dict) yaml_recipe_dict in
  foldM yaml_name_step (d_stages original_recipe_dict) yaml_recipe_dict.

(** [parse(serialize(R))] on the mapping that [Recipe.yaml] hands to
    [yaml.dump]; the YAML text of a mapping is read back as that mapping. *)
Definition parse_serialized (r : Recipe) : result Recipe :=
  yaml_dict <- _get_yaml_dict r ;;
  model_validate yaml_dict.

(** ** Auxiliary notions used in the statements *)

(** The last character decides many suffix tests. *)
Fixpoint last_char (s : string) : option ascii :=
  match s with
  | EmptyString => None
  | String c EmptyString => Some c
  | String _ s' => last_char s'
  end.








(** *** Normalization, in the words of spec 4.2 *)

Definition is_stage_key (k : string) : bool := endswith k "_stage".

(** A stage body tagged with the name of its stage. *)
Definition tag_group (name : string) (v : value) : value :=
  match v with
  | VDict body => VDict (dict_set "group" (VStr name) body)
  | _ => v
  end.

(** Shape (1): one stage named "default" when the shorthand yields
    descriptors. *)
Definition default_part (values : dict) : list value :=
  match extract_dict_modifiers values with
  | Ok (m :: ms, _) => [default_stage (m :: ms)]
  | _ => []
  end.

(** Is the [stages] key taken as shape (2)? *)
Definition explicit_given (values : dict) : bool :=
  match dict_get "stages" values with
  | Some sv => truthy sv
  | None => false
  end.

(** Shape (2): the entries of the [stages] mapping. *)
Definition explicit_part (values : dict) : list value :=
  match dict_get "stages" values with
  | Some (VDict sd) => map (fun kv => tag_group (fst kv) (snd kv)) sd
  | _ => []
  end.

(** Shape (3): the top-level keys ending in [_stage]. *)
Definition suffix_part (values : dict) : list value :=
  map (fun kv => tag_group (rsplit1_head (fst kv) "_stage") (snd kv))
    (filter (fun kv => is_stage_key (fst kv)) values).

Definition no_modifiers_key (kv : string * value) : bool :=
  negb (is_modifiers_key (fst kv)).

Definition stage_consumed (values : dict) (kv : string * value) : bool :=
  is_stage_key (fst kv) ||
  (String.eqb (fst kv) "stages" && explicit_given values).

(** The keys consumed as stage shapes. *)
Definition consumed (values : dict) (k : string) : bool :=
  is_modifiers_key k || is_stage_key k ||
  (String.eqb k "stages" && explicit_given values).

Definition remaining (values : dict) : dict :=
  filter (fun kv => negb (consumed values (fst kv))) values.

(** Every value that a pass reads as a mapping is one. *)
Definition modifiers_ok (values : dict) : bool :=
  forallb (fun kv => negb (is_modifiers_key (fst kv)) || is_dict (snd kv))
    values.

Definition explicit_ok (values : dict) : bool :=
  match dict_get "stages" values with
  | Some sv =>
      negb (truthy sv) ||
      match sv with
      | VDict sd => forallb (fun kv => is_dict (snd kv)) sd
      | _ => false
      end
  | None => true
  end.

Definition suffix_ok (values : dict) : bool :=
  forallb (fun kv => negb (is_stage_key (fst kv)) || is_dict (snd kv)) values.



(** An environment for examples: [json.loads] accepts only the text {},
    [yaml.safe_load] rejects one ill-formed text and reads any other text as
    a scalar, and no path is a file. *)
Definition example_env : Env :=
  mkEnv (fun s => if String.eqb s "{}" then Some (VDict []) else None)
        (fun s => if String.eqb s "lr: [" then None else Some (VStr s))
        (fun _ => false)
        (fun _ => "").

Definition example_values : dict :=
  [("modifiers", VDict [("M1", VDict [("a", VInt 1)])]);
   ("version", VStr "1.0");
   ("stages", VDict [("s1", VDict [])]);
   ("lr", VInt 3);
   ("pruning_stage", VDict [("run_type", VStr "train")])].



(** Well-formedness of a literal dictionary. *)
Ltac solve_wf :=
  unfold wf_dict, keys; simpl;
  repeat (constructor; [simpl; intuition discriminate|]); constructor.

(** *** Combination and simplification, in the words of spec 4.3 and 4.4 *)

Definition empty_recipe : Recipe := mkRecipe None [] [].

(** The declared element type of [recipes]: [Union[str, Recipe]]. *)
Definition declared_input (i : RecipeInput) : bool :=
  match i with
  | InStr _ | InRecipe _ => true
  | _ => false
  end.

(** Union of the args, a later recipe overwriting an earlier one. *)
Definition combined_args (rs : list Recipe) : dict :=
  fold_left (fun acc r => dict_update acc (args r)) rs [].

(** The value that the last recipe holding [k] gives it. *)
Definition last_binding (k : string) (rs : list Recipe) : option value :=
  fold_left (fun acc r => match dict_get k (args r) with
                          | Some v => Some v
                          | None => acc
                          end) rs None.

Definition kept_stages (target_stage : option RecipeStageInput) (r : Recipe)
  : list RecipeStage :=
  match target_stage with
  | Some t =>
      if target_truthy target_stage
      then filter (fun stage => py_in (s_group stage) t) (stages r)
      else stages r
  | None => stages r
  end.

Definition merged_args (override_args : option dict) (r : Recipe) : dict :=
  match override_args with
  | Some d => dict_update (args r) d
  | None => args r
  end.

Definition example_recipe : Recipe :=
  mkRecipe (Some "1.0") [("k", VInt 1); ("lr", VInt 3)]
    [mkRecipeStage "s1" None [mkRecipeModifier "M1" "g" []];
     mkRecipeStage "s2" None [];
     mkRecipeStage "s1" None [mkRecipeModifier "M2" "g" []]].

(** *** Serialization, in the words of spec 4.6 *)

(** A dumped stage after [del stage["group"]]. *)
Definition body_dump (s : RecipeStage) : dict :=
  [("run_type", opt_str (s_run_type s));
   ("modifiers", VList (map modifier_dump (s_modifiers s)))].

(** The stages of each group, groups in first-seen order. *)
Definition group_add (s : RecipeStage)
  (groups : list (string * list RecipeStage)) : list (string * list RecipeStage) :=
  match dict_get (s_group s) groups with
  | Some l => dict_set (s_group s) (l ++ [s]) groups
  | None => groups ++ [(s_group s, [s])]
  end.

Definition grouped (ss : list RecipeStage) : list (string * list RecipeStage) :=
  fold_left (fun groups s => group_add s groups) ss [].

Definition to_stages (groups : list (string * list RecipeStage))
  : list (string * list dict) :=
  map (fun e => ((fst e ++ "_stage")%string, map body_dump (snd e))) groups.

(** The modifiers of a stage keyed by group, then by type; groups and types
    in first-seen order. *)
Definition modifier_add (m : RecipeModifier)
  (by_group : list (string * list (string * dict)))
  : list (string * list (string * dict)) :=
  match dict_get (m_group m) by_group with
  | Some inner =>
      dict_set (m_group m) (dict_set (m_type m) (m_args m) inner) by_group
  | None => by_group ++ [(m_group m, [(m_type m, m_args m)])]
  end.

Definition regrouped (ms : list RecipeModifier)
  : list (string * list (string * dict)) :=
  fold_left (fun by_group m => modifier_add m by_group) ms [].

Definition inner_value (inner : list (string * dict)) : value :=
  VDict (map (fun ta => (fst ta, VDict (snd ta))) inner).

Definition stage_dict_value (by_group : list (string * list (string * dict)))
  : dict :=
  map (fun e => ((fst e ++ "_modifiers")%string, inner_value (snd e)))
    by_group.

(** The body emitted for a stage: its modifiers by group and type, and its
    run type when set. *)
Definition serialized_stage (s : RecipeStage) : dict :=
  let stage_dict := stage_dict_value (regrouped (s_modifiers s)) in
  match s_run_type s with
  | Some rt =>
      if String.eqb rt "" then stage_dict
      else dict_set "run_type" (VStr rt) stage_dict
  | None => stage_dict
  end.

(** The run type entry of an emitted body. *)
Definition run_type_entry (s : RecipeStage) : dict :=
  match s_run_type s with
  | Some rt => if String.eqb rt "" then [] else [("run_type", VStr rt)]
  | None => []
  end.

(** The descriptors that the modifier shorthand yields for one key. *)
Definition shorthand_descriptors (kv : string * value) : list value :=
  if is_modifiers_key (fst kv) then
    match snd kv with
    | VDict m =>
        map (fun ta : string * value =>
               modifier_dict (fst ta) (modifiers_key_group (fst kv)) (snd ta))
          m
    | _ => []
    end
  else [].

(** The modifiers read back from an emitted stage body. *)
Definition regroup (ms : list RecipeModifier) : list RecipeModifier :=
  flat_map (fun e => map (fun ta => mkRecipeModifier (fst ta) (fst e) (snd ta))
                       (snd e))
    (regrouped ms).

Definition final_name (stage_name : string) (len idx : nat) : string :=
  if (1 <? len)%nat then (stage_name ++ "_" ++ str_of_nat idx)%string
  else stage_name.

(** The entries written for the stages, in the order of the writes. *)
Definition writes (groups : list (string * list RecipeStage)) : dict :=
  flat_map (fun e =>
              map (fun ix =>
                     (final_name (fst e ++ "_stage") (length (snd e)) (fst ix),
                      VDict (serialized_stage (snd ix))))
                (enumerate (snd e)))
    groups.

(** The recipe-level attributes emitted: those that are truthy. *)
Definition attributes (r : Recipe) : dict :=
  yaml_attribute "args" (VDict (args r))
    (yaml_attribute "version" (opt_str (version r)) []).

Definition same_group (g : string) (s : RecipeStage) : bool :=
  String.eqb (s_group s) g.

Definition group_count (ss : list RecipeStage) (g : string) : nat :=
  length (filter (same_group g) ss).

(** The key under which the stage [s] at position [p] of [ss] is emitted:
    ["<group>_stage"], with the suffix ["_<idx>"] when several stages have
    that group, [idx] counting the earlier stages of the group. *)
Definition emitted_key (ss : list RecipeStage) (p : nat) (s : RecipeStage)
  : string :=
  if (1 <? group_count ss (s_group s))%nat
  then (s_group s ++ "_stage_"
        ++ str_of_nat (group_count (firstn p ss) (s_group s)))%string
  else (s_group s ++ "_stage")%string.

(** The run type of a stage is one that parsing produces: a non-empty name,
    or none when none is inferred from the group. *)
Definition run_type_canonical (s : RecipeStage) : Prop :=
  match s_run_type s with
  | Some rt => rt <> ""
  | None => infer_run_type (s_group s) = None
  end.

Definition modifier_key (m : RecipeModifier) : string * string :=
  (m_group m, m_type m).

Definition is_digit (c : ascii) : bool :=
  let n := nat_of_ascii c in (48 <=? n)%nat && (n <=? 57)%nat.

Fixpoint all_digits (s : string) : bool :=
  match s with
  | EmptyString => true
  | String c s' => is_digit c && all_digits s'
  end.

(** The descriptors held by a two-level dictionary of modifiers. *)
Definition flat_modifiers (by_group : list (string * list (string * dict)))
  : list RecipeModifier :=
  flat_map (fun e => map (fun ta => mkRecipeModifier (fst ta) (fst e) (snd ta))
                       (snd e)) by_group.

(** The entries emitted for stages of pairwise distinct groups. *)
Definition stage_entries (ss : list RecipeStage) : dict :=
  map (fun s => ((s_group s ++ "_stage")%string, VDict (serialized_stage s))) ss.

(** The mapping emitted for a Recipe with stages of distinct groups. *)
Definition emitted_dict (r : Recipe) : dict :=
  attributes r ++ stage_entries (stages r).

(** The stage read back from the entry emitted for [s]. *)
Definition reparsed_stage (s : RecipeStage) : RecipeStage :=
  mkRecipeStage (s_group s) (s_run_type s) (regroup (s_modifiers s)).

(** Two stages of one group, as combining two recipes produces them. *)
Definition duplicate_group_recipe : Recipe :=
  mkRecipe None []
    [mkRecipeStage "s1" None [mkRecipeModifier "M1" "g" [("a", VInt 1)]];
     mkRecipeStage "s1" None [mkRecipeModifier "M2" "g" []]].

Definition example_roundtrip_recipe : Recipe :=
  mkRecipe (Some "1.0") [("k", VInt 3)]
    [mkRecipeStage "s1" None
       [mkRecipeModifier "M1" "g1" [("a", VInt 1)];
        mkRecipeModifier "M2" "g2" [];
        mkRecipeModifier "M3" "g1" []];
     mkRecipeStage "oneshot" (Some "oneshot") []].

(** ** Further notions used in the statements *)

(** The live modifiers of a list of objects. *)
Definition modifiers_of (l : list elem) : list Modifier :=
  flat_map (fun e => match e with EModifier m => [m] | _ => [] end) l.

(** [modifier_group_name or "default"] *)
Definition group_name_or_default (modifier_group_name : option string) : string :=
  match modifier_group_name with
  | Some n => if String.eqb n "" then "default" else n
  | None => "default"
  end.



(** The args found under a group and a type in an emitted stage body. *)
Definition emitted_args (stage_dict : dict) (g t : string) : option value :=
  match dict_get (g ++ "_modifiers") stage_dict with
  | Some (VDict inner) => dict_get t inner
  | _ => None
  end.

(** The args of the last descriptor of group [g] and type [t]. *)
Definition last_args (ms : list RecipeModifier) (g t : string) : option dict :=
  fold_left (fun acc m =>
               if String.eqb (m_group m) g && String.eqb (m_type m) t
               then Some (m_args m) else acc) ms None.

Definition by_group_get (by_group : list (string * list (string * dict)))
  (g t : string) : option dict :=
  match dict_get g by_group with
  | Some inner => dict_get t inner
  | None => None
  end.

(** ** Materialization (recipe.py, lines 228-257) *)

(** A [StageModifiers] object (llmcompressor.modifiers), seen through the
    attributes that [create_modifier] assigns, [index] and [group], and the
    modifier instances it holds, of a type [M] left to the registry. *)
Record StageModifiers (M : Type) : Type := mkStageModifiers {
  sm_modifiers : list M;
  sm_index : option nat;
  sm_group : option string
}.

Arguments mkStageModifiers {M} _ _ _.
Arguments sm_modifiers {M} _.
Arguments sm_index {M} _.
Arguments sm_group {M} _.

Section Materialize.
Variable M : Type.
(** [stage.create_modifier()], of the class [RecipeStage]: the instances that
    the registry builds for the descriptors of the stage, or its error. *)
Variable stage_create_modifier : RecipeStage -> result (StageModifiers M).

(** lines 251-255: the body of the loop. *)
Definition create_modifier_step (modifiers : list (StageModifiers M))
  (index_stage : nat * RecipeStage) : result (list (StageModifiers M)) :=
  stage_modifiers <- stage_create_modifier (snd index_stage) ;;
  let stage_modifiers :=
    mkStageModifiers (sm_modifiers stage_modifiers) (Some (fst index_stage))
      (sm_group stage_modifiers) in
  let stage_modifiers :=
    mkStageModifiers (sm_modifiers stage_modifiers) (sm_index stage_modifiers)
      (Some (s_group (snd index_stage))) in
  Ok (modifiers ++ [stage_modifiers]).

(** [Recipe.create_modifier] *)
Definition create_modifier (self : Recipe) : result (list (StageModifiers M)) :=
  foldM create_modifier_step (enumerate (stages self)) [].
End Materialize.

Arguments create_modifier_step {M} _ _ _.
Arguments create_modifier {M} _ _.

(** A registry for examples: it builds nothing for the stage "bad". *)
Definition example_registry (s : RecipeStage) : result (StageModifiers string) :=
  if String.eqb (s_group s) "bad" then Err KeyError
  else Ok (mkStageModifiers (map m_type (s_modifiers s)) None None).

(** ** The min-max observer (observers/min_max.py)

    Tensors and the operations of torch on them are parameters, the fields
    of [TensorOps]; so is [calculate_qparams] of compressed_tensors, taken
    with the [quantization_args] of the observer.  The state of the observer
    is its two dictionaries of running values, keyed by tensor id. *)

Record TensorOps (Tensor QParams : Type) : Type := mkTensorOps {
  torch_aminmax : Tensor -> Tensor * Tensor;
  (* torch.amin(observed, dim=reduce_dims, keepdims=True), and amax *)
  torch_amin : Tensor -> list Z -> Tensor;
  torch_amax : Tensor -> list Z -> Tensor;
  tensor_add : Tensor -> Tensor -> Tensor;
  tensor_sub : Tensor -> Tensor -> Tensor;
  (* float * tensor *)
  tensor_scale : float -> Tensor -> Tensor;
  (* observed.ndim *)
  ndim : Tensor -> nat;
  (* calculate_qparams(min_vals, max_vals, quantization_args, global_scale) *)
  qparams_of : Tensor -> Tensor -> option Tensor -> QParams
}.

Arguments torch_aminmax {Tensor QParams} _ _.
Arguments torch_amin {Tensor QParams} _ _ _.
Arguments torch_amax {Tensor QParams} _ _ _.
Arguments tensor_add {Tensor QParams} _ _ _.
Arguments tensor_sub {Tensor QParams} _ _ _.
Arguments tensor_scale {Tensor QParams} _ _ _.
Arguments ndim {Tensor QParams} _ _.
Arguments qparams_of {Tensor QParams} _ _ _ _.

Record MinMaxObserver (Tensor : Type) : Type := mkMinMaxObserver {
  averaging_constant : float;
  min_val : list (string * Tensor);
  max_val : list (string * Tensor)
}.

Arguments mkMinMaxObserver {Tensor} _ _ _.
Arguments averaging_constant {Tensor} _.
Arguments min_val {Tensor} _.
Arguments max_val {Tensor} _.

(** [tensor_id or "default"] *)
Definition tensor_id_or_default (tensor_id : option string) : string :=
  match tensor_id with
  | Some s => if String.eqb s "" then "default" else s
  | None => "default"
  end.

(** line 105: [tuple(idx for idx in range(observed.ndim) if idx != dim)] *)
Definition reduce_dims_along (n : nat) (dim : Z) : list Z :=
  filter (fun idx => negb (Z.eqb idx dim)) (map Z.of_nat (seq 0 n)).

Section MinMax.
Context {Tensor QParams : Type}.
Variable ops : TensorOps Tensor QParams.

(** lines 54-58: the observed minimum and maximum. *)
Definition observed_min_max (observed : Tensor) (reduce_dims : option (list Z))
  : Tensor * Tensor :=
  match reduce_dims with
  | None | Some [] => torch_aminmax ops observed
  | Some dims => (torch_amin ops observed dims, torch_amax ops observed dims)
  end.

(** lines 73-82: the moving average of a running value. *)
Definition moving_average (c : float) (running observed : Tensor) : Tensor :=
  tensor_add ops running (tensor_scale ops c (tensor_sub ops observed running)).

(** [MinMaxObserver.calculate_qparams]: the observer after the call and the
    value returned. *)
Definition calculate_qparams (self : MinMaxObserver Tensor) (observed : Tensor)
  (reduce_dims : option (list Z)) (tensor_id : option string)
  (global_scale : option Tensor) : MinMaxObserver Tensor * QParams :=
  let tensor_id := tensor_id_or_default tensor_id in
  let (min_v, max_v) := observed_min_max observed reduce_dims in
  if PrimFloat.eqb (averaging_constant self) 1%float then
    (self, qparams_of ops min_v max_v global_scale)
  else
    let running_min_val := dict_get tensor_id (min_val self) in
    let running_max_val := dict_get tensor_id (max_val self) in
    let (updated_min_val, updated_max_val) :=
      match running_min_val, running_max_val with
      | Some rmin, Some rmax =>
          (moving_average (averaging_constant self) rmin min_v,
           moving_average (averaging_constant self) rmax max_v)
      | _, _ => (min_v, max_v)
      end in
    (mkMinMaxObserver (averaging_constant self)
       (dict_set tensor_id updated_min_val (min_val self))
       (dict_set tensor_id updated_max_val (max_val self)),
     qparams_of ops updated_min_val updated_max_val global_scale).

(** [MinMaxObserver.get_qparams_along_dim] *)
Definition get_qparams_along_dim (self : MinMaxObserver Tensor)
  (observed : Tensor) (dim : Z) (tensor_id : option string)
  (global_scale : option Tensor) : MinMaxObserver Tensor * QParams :=
  let reduce_dims := reduce_dims_along (ndim ops observed) dim in
  calculate_qparams self observed (Some reduce_dims) tensor_id global_scale.
End MinMax.

(** Tensor operations for examples: a tensor is a list of integers, the
    reductions are global and the scaling ignores its factor. *)
Definition example_ops : TensorOps (list Z) (list Z * list Z) :=
  mkTensorOps (list Z) (list Z * list Z)
    (fun t => ([fold_right Z.min 0%Z t], [fold_right Z.max 0%Z t]))
    (fun t _ => [fold_right Z.min 0%Z t])
    (fun t _ => [fold_right Z.max 0%Z t])
    (fun a b => map (fun xy => (fst xy + snd xy)%Z) (combine a b))
    (fun a b => map (fun xy => (fst xy - snd xy)%Z) (combine a b))
    (fun _ t => t)
    (fun _ => 1)
    (fun lo hi _ => (lo, hi)).

(** The number of stages held by the groups of [Recipe.dict]. *)
Definition group_total (groups : list (string * list RecipeStage)) : nat :=
  fold_right (fun e n => length (snd e) + n) 0 groups.

(** * Properties *)

(** ** Strings *)

Section StringFacts.
Local Open Scope string_scope.

Lemma append_assoc (a b c : string) : (a ++ b) ++ c = a ++ (b ++ c).
Proof. induction a as [|x a IH]; simpl; [reflexivity | now rewrite IH]. Qed.

Lemma append_empty_r (a : string) : a ++ "" = a.
Proof. induction a as [|x a IH]; simpl; [reflexivity | now rewrite IH]. Qed.

Lemma length_append (a b : string) :
  String.length (a ++ b) = String.length a + String.length b.
Proof. induction a as [|x a IH]; simpl; [reflexivity | now rewrite IH]. Qed.

Lemma append_inj_l (a b c : string) : a ++ c = b ++ c -> a = b.
Proof.
  revert b; induction a as [|x a IH]; intros [|y b] H; simpl in H.
  - reflexivity.
  - apply (f_equal String.length) in H; simpl in H.
    rewrite length_append in H; lia.
  - apply (f_equal String.length) in H; simpl in H.
    rewrite length_append in H; lia.
  - injection H as -> H; f_equal; auto.
Qed.

Lemma endswith_refl (s : string) : endswith s s = true.
Proof. destruct s; simpl; [reflexivity | now rewrite Ascii.eqb_refl, String.eqb_refl]. Qed.

Lemma endswith_append (p suffix : string) : endswith (p ++ suffix) suffix = true.
Proof.
  induction p as [|x p IH]; simpl.
  - apply endswith_refl.
  - rewrite IH; apply orb_true_r.
Qed.

Lemma endswith_inv (s suffix : string) :
  endswith s suffix = true -> exists p, s = p ++ suffix.
Proof.
  induction s as [|x s IH]; simpl; intros H.
  - apply orb_true_iff in H as [H | H]; [|discriminate].
    destruct suffix; [now exists "" | discriminate].
  - apply orb_true_iff in H as [H | H].
    + exists ""; simpl.
      change (String x s = suffix).
      now apply String.eqb_eq.
    + destruct (IH H) as [p ->]; now exists (String x p).
Qed.

Lemma endswith_length (s suffix : string) :
  endswith s suffix = true -> String.length suffix <= String.length s.
Proof.
  intros H; apply endswith_inv in H as [p ->]; rewrite length_append; lia.
Qed.

Lemma last_char_append (a b : string) :
  b <> "" -> last_char (a ++ b) = last_char b.
Proof.
  intros Hb; induction a as [|x a IH]; simpl; [reflexivity|].
  rewrite <- IH.
  destruct (a ++ b) eqn:E; [|reflexivity].
  destruct a; simpl in E; [contradiction | discriminate].
Qed.

Lemma endswith_last_char (s suffix : string) :
  suffix <> "" -> endswith s suffix = true -> last_char s = last_char suffix.
Proof.
  intros Hs H; apply endswith_inv in H as [p ->].
  now apply last_char_append.
Qed.

Lemma prefix_append (a b : string) : String.prefix a (a ++ b) = true.
Proof.
  induction a as [|x a IH]; simpl; [now destruct b|].
  destruct (ascii_dec x x); [assumption | contradiction].
Qed.

Lemma prefix_inv (a s : string) :
  String.prefix a s = true -> exists r, s = a ++ r.
Proof.
  revert s; induction a as [|x a IH]; intros s H.
  - now exists s.
  - destruct s as [|y s]; simpl in H; [discriminate|].
    destruct (ascii_dec x y); [subst|discriminate].
    destruct (IH _ H) as [r ->]; now exists r.
Qed.

Lemma prefix_length (a s : string) :
  String.prefix a s = true -> String.length a <= String.length s.
Proof.
  intros H; apply prefix_inv in H as [r ->]; rewrite length_append; lia.
Qed.

Lemma rfind_head_short (sep s : string) :
  String.length s < String.length sep -> rfind_head sep s = None.
Proof.
  induction s as [|x s IH]; simpl; intros H.
  - destruct sep; [simpl in H; lia | reflexivity].
  - rewrite IH by lia.
    destruct sep as [|y sep]; [simpl in H; lia|].
    destruct (ascii_dec y x); [|reflexivity].
    destruct (String.prefix sep s) eqn:E; [|reflexivity].
    apply prefix_length in E; simpl in H; lia.
Qed.

Lemma rfind_head_append (sep p : string) :
  sep <> "" -> rfind_head sep (p ++ sep) = Some p.
Proof.
  intros Hsep; induction p as [|x p IH]; simpl.
  - destruct sep as [|y sep]; [contradiction|].
    simpl; rewrite rfind_head_short by (simpl; lia).
    destruct (ascii_dec y y); [|contradiction].
    rewrite <- (append_empty_r sep) at 2.
    now rewrite prefix_append.
  - now rewrite IH.
Qed.

(** [(p + sep).rsplit(sep, 1)[0] == p] *)
Lemma rsplit1_head_append (p sep : string) :
  sep <> "" -> rsplit1_head (p ++ sep) sep = p.
Proof.
  intros H; unfold rsplit1_head; now rewrite rfind_head_append.
Qed.
End StringFacts.

(** ** Front matter *)

Section FrontMatter.
Local Open Scope string_scope.















End FrontMatter.




(** ** Dictionaries *)

Lemma filter_twice {A : Type} (f g : A -> bool) (l : list A) :
  filter f (filter g l) = filter (fun x => f x && g x) l.
Proof.
  induction l as [|x l IH]; simpl; [reflexivity|].
  destruct (g x); simpl.
  - rewrite andb_true_r. destruct (f x); now rewrite IH.
  - now rewrite andb_false_r.
Qed.

Section DictFacts.
Context {V : Type}.
Implicit Types (d : list (string * V)) (k : string).

Lemma dict_get_none d k : dict_get k d = None <-> ~ In k (keys d).
Proof.
  induction d as [|[k' v] d IH]; simpl; [tauto|].
  destruct (String.eqb_spec k k') as [->|Hne].
  - split; [discriminate | intros H; exfalso; apply H; now left].
  - rewrite IH. split; [intros H [E|H']; congruence | tauto].
Qed.

Lemma dict_get_some_in d k v : dict_get k d = Some v -> In (k, v) d.
Proof.
  induction d as [|[k' v'] d IH]; simpl; [discriminate|].
  destruct (String.eqb_spec k k') as [->|Hne]; [intros [= ->]; now left|].
  intros H; right; auto.
Qed.

Lemma dict_get_in d k v : wf_dict d -> In (k, v) d -> dict_get k d = Some v.
Proof.
  unfold wf_dict; induction d as [|[k' v'] d IH]; simpl; [tauto|].
  intros Hnd [E | Hin]; inversion Hnd as [|? ? Hni Hnd']; subst.
  - injection E as -> ->. now rewrite String.eqb_refl.
  - destruct (String.eqb_spec k k') as [->|Hne]; [|auto].
    exfalso; apply Hni. now apply (in_map fst) in Hin.
Qed.

Lemma dict_mem_true d k : dict_mem k d = true <-> In k (keys d).
Proof.
  unfold dict_mem. pose proof (dict_get_none d k) as H.
  destruct (dict_get k d).
  - split; [intros _|reflexivity].
    destruct (in_dec string_dec k (keys d)); [assumption|].
    apply H in n. discriminate.
  - split; [discriminate|]. intros Hin. now apply H in Hin.
Qed.

Lemma dict_set_fresh d k v : ~ In k (keys d) -> dict_set k v d = d ++ [(k, v)].
Proof.
  induction d as [|[k' v'] d IH]; simpl; [reflexivity|].
  intros H. destruct (String.eqb_spec k k') as [->|Hne]; [tauto|].
  rewrite IH; tauto.
Qed.

Lemma dict_get_set d k k' v :
  dict_get k (dict_set k' v d) = if String.eqb k k' then Some v else dict_get k d.
Proof.
  induction d as [|[k2 v2] d IH]; simpl.
  - destruct (String.eqb k k'); reflexivity.
  - destruct (String.eqb_spec k' k2) as [->|Hne]; simpl.
    + destruct (String.eqb k k2); reflexivity.
    + rewrite IH. destruct (String.eqb_spec k k2) as [->|Hne2]; [|reflexivity].
      destruct (String.eqb_spec k2 k'); congruence.
Qed.

Lemma keys_dict_set_in d k v : In k (keys d) -> keys (dict_set k v d) = keys d.
Proof.
  induction d as [|[k2 v2] d IH]; simpl; [tauto|].
  destruct (String.eqb_spec k k2) as [->|Hne]; simpl; [reflexivity|].
  intros [E|H]; [congruence|]. now rewrite IH.
Qed.

Lemma dict_update_fresh d d2 :
  NoDup (keys d2) -> (forall k, In k (keys d2) -> ~ In k (keys d)) ->
  dict_update d d2 = d ++ d2.
Proof.
  unfold dict_update. revert d; induction d2 as [|[k v] d2 IH]; intros d Hnd Hdis.
  - simpl. now rewrite app_nil_r.
  - simpl. inversion Hnd as [|? ? Hni Hnd']; subst.
    rewrite dict_set_fresh by (apply Hdis; now left).
    rewrite IH; [now rewrite <- app_assoc | assumption |].
    intros k' Hk' Hin. unfold keys in Hin. rewrite map_app, in_app_iff in Hin.
    destruct Hin as [Hin | [<- | []]]; [|tauto].
    apply (Hdis k'); [now right | assumption].
Qed.

Lemma dict_copy_wf d : wf_dict d -> dict_copy d = d.
Proof.
  intros H. unfold dict_copy. rewrite dict_update_fresh; auto.
Qed.

Lemma dict_get_app d d' k :
  dict_get k (d ++ d') =
  match dict_get k d with Some v => Some v | None => dict_get k d' end.
Proof.
  induction d as [|[ka va] d IH]; simpl; [reflexivity|].
  destruct (String.eqb k ka); auto.
Qed.

(** Last write wins. *)
Lemma dict_get_update d d2 k :
  dict_get k (dict_update d d2) =
  match dict_get k (rev d2) with
  | Some v => Some v
  | None => dict_get k d
  end.
Proof.
  unfold dict_update. revert d; induction d2 as [|[k' v'] d2 IH]; intros d.
  - reflexivity.
  - simpl. rewrite IH, dict_get_set, dict_get_app.
    destruct (dict_get k (rev d2)); [reflexivity|].
    simpl. destruct (String.eqb k k'); reflexivity.
Qed.

Lemma keys_filter_nodup (p : string * V -> bool) d :
  wf_dict d -> wf_dict (filter p d).
Proof.
  unfold wf_dict. induction d as [|[k v] d IH]; simpl; intros H; [constructor|].
  inversion H as [|? ? Hni Hnd]; subst.
  destruct (p (k, v)); simpl; [constructor|]; auto.
  intros Hin. apply Hni. unfold keys in *. apply in_map_iff in Hin as (x & Ex & Hx).
  apply filter_In in Hx as [Hx _]. apply in_map_iff. eauto.
Qed.

Lemma dict_get_filter_key (p : string -> bool) d k :
  p k = true -> dict_get k (filter (fun kv => p (fst kv)) d) = dict_get k d.
Proof.
  intros Hp. induction d as [|[k' v] d IH]; simpl; [reflexivity|].
  destruct (p k') eqn:E; simpl.
  - now rewrite IH.
  - destruct (String.eqb_spec k k') as [->|Hne]; [congruence | assumption].
Qed.

Lemma dict_remove_wf d k :
  wf_dict d ->
  dict_remove k d = filter (fun kv => negb (String.eqb k (fst kv))) d.
Proof.
  unfold wf_dict. induction d as [|[k' v] d IH]; simpl; intros H; [reflexivity|].
  inversion H as [|? ? Hni Hnd]; subst.
  destruct (String.eqb_spec k k') as [->|Hne]; simpl.
  - symmetry. apply forallb_filter_id.
    apply forallb_forall. intros [k2 v2] Hin. simpl.
    destruct (String.eqb_spec k' k2) as [->|]; [|reflexivity].
    exfalso; apply Hni. now apply (in_map fst) in Hin.
  - now rewrite IH.
Qed.

(** Deleting the listed keys one by one removes exactly them. *)
Lemma foldM_dict_del (ks : list string) d :
  wf_dict d -> NoDup ks -> incl ks (keys d) ->
  foldM (fun d key => dict_del key d) ks d =
  Ok (filter (fun kv => negb (existsb (String.eqb (fst kv)) ks)) d).
Proof.
  revert d; induction ks as [|k ks IH]; intros d Hwf Hnd Hincl; simpl.
  - f_equal. symmetry. apply forallb_filter_id.
    now apply forallb_forall.
  - inversion Hnd as [|? ? Hni Hnd']; subst.
    unfold dict_del at 1.
    rewrite (proj2 (dict_mem_true d k)) by (apply Hincl; now left).
    simpl. rewrite dict_remove_wf by assumption.
    rewrite IH; auto using keys_filter_nodup.
    + f_equal. rewrite filter_twice. apply filter_ext. intros [k' v]; simpl.
      rewrite (String.eqb_sym k k'), negb_orb. apply andb_comm.
    + intros k' Hk'. pose proof (Hincl k' (or_intror Hk')) as Hin.
      unfold keys in *. apply in_map_iff in Hin as ([k2 v2] & E & Hin).
      simpl in E; subst k2. apply in_map_iff. exists (k', v2); split; auto.
      apply filter_In; split; [assumption|]. simpl.
      destruct (String.eqb_spec k k') as [->|]; [contradiction | reflexivity].
Qed.
End DictFacts.

(** ** The error monad *)

Lemma mapM_ok {A B : Type} (f : A -> result B) (g : A -> B) (l : list A) :
  (forall x, In x l -> f x = Ok (g x)) -> mapM f l = Ok (map g l).
Proof.
  induction l as [|a l IH]; intros H; simpl; [reflexivity|].
  rewrite (H a) by now left. simpl. rewrite IH; [reflexivity|].
  intros x Hx; apply H; now right.
Qed.

Lemma mapM_err {A B : Type} (f : A -> result B) (ok : A -> bool) (e : error)
  (l : list A) :
  (forall x, In x l -> ok x = true -> exists b, f x = Ok b) ->
  (forall x, In x l -> ok x = false -> f x = Err e) ->
  forallb ok l = false -> mapM f l = Err e.
Proof.
  induction l as [|a l IH]; intros Hok Herr Hall; simpl in *; [discriminate|].
  destruct (ok a) eqn:Ea.
  - destruct (Hok a (or_introl eq_refl) Ea) as [b ->]. simpl.
    rewrite IH; auto.
  - now rewrite (Herr a (or_introl eq_refl) Ea).
Qed.

Lemma mapM_length {A B : Type} (f : A -> result B) (l : list A) (r : list B) :
  mapM f l = Ok r -> length r = length l.
Proof.
  revert r; induction l as [|a l IH]; intros r; simpl.
  - now intros [= <-].
  - destruct (f a); simpl; [|discriminate].
    destruct (mapM f l); simpl; [|discriminate].
    intros [= <-]. simpl. now rewrite (IH _ eq_refl).
Qed.

Lemma foldM_app {A S : Type} (f : S -> A -> result S) (l l' : list A) (s : S) :
  foldM f (l ++ l') s = s' <- foldM f l s ;; foldM f l' s'.
Proof.
  revert s; induction l as [|a l IH]; intros s; simpl; [reflexivity|].
  destruct (f s a); simpl; auto.
Qed.

(** ** Keys of the three shapes *)

Lemma stage_key_last (k : string) :
  is_stage_key k = true -> last_char k = Some "e"%char.
Proof.
  intros H. apply endswith_last_char in H; [assumption | discriminate].
Qed.

Lemma modifiers_key_last (k : string) :
  is_modifiers_key k = true -> last_char k = Some "s"%char.
Proof.
  unfold is_modifiers_key. intros H. apply orb_true_iff in H as [H | H].
  - apply String.eqb_eq in H as ->. reflexivity.
  - apply endswith_last_char in H; [assumption | discriminate].
Qed.

Lemma stage_key_not_modifiers (k : string) :
  is_stage_key k = true -> is_modifiers_key k = false.
Proof.
  intros H. destruct (is_modifiers_key k) eqn:E; [|reflexivity].
  apply stage_key_last in H. apply modifiers_key_last in E. congruence.
Qed.

Lemma stage_key_not_stages (k : string) :
  is_stage_key k = true -> String.eqb k "stages" = false.
Proof.
  intros H. destruct (String.eqb_spec k "stages") as [->|]; [discriminate|].
  reflexivity.
Qed.

(** ** The passes of the normalization *)

Lemma forallb_filter_weak {A : Type} (p q : A -> bool) (l : list A) :
  (forall x, q x = false -> p x = true) ->
  forallb p (filter q l) = forallb p l.
Proof.
  intros H. induction l as [|a l IH]; simpl; [reflexivity|].
  destruct (q a) eqn:E; simpl; [now rewrite IH|].
  now rewrite (H a E), IH.
Qed.

Lemma extract_dict_modifiers_eq (values : dict) :
  extract_dict_modifiers values =
  if modifiers_ok values
  then match extract_dict_modifiers values with
       | Ok (ms, _) => Ok (ms, filter no_modifiers_key values)
       | Err e => Err e
       end
  else Err ValidationError.
Proof.
  unfold extract_dict_modifiers.
  destruct (modifiers_ok values) eqn:E.
  - destruct (mapM _ values); reflexivity.
  - erewrite mapM_err with (e := ValidationError)
      (ok := fun kv => negb (is_modifiers_key (fst kv)) || is_dict (snd kv));
      [reflexivity | | | exact E].
    + intros [k v] _ H. simpl in *. destruct (is_modifiers_key k); eauto.
      destruct v; try discriminate; eauto.
    + intros [k v] _ H. simpl in *. destruct (is_modifiers_key k);
        [|discriminate]. destruct v; try reflexivity; discriminate.
Qed.

Lemma extract_dict_modifiers_total (values : dict) :
  modifiers_ok values = true ->
  exists ms, extract_dict_modifiers values = Ok (ms, filter no_modifiers_key values).
Proof.
  intros H. unfold extract_dict_modifiers.
  rewrite mapM_ok with
    (g := fun kv : string * value =>
            if is_modifiers_key (fst kv) then
              match snd kv with
              | VDict m =>
                  map (fun ta : string * value =>
                         modifier_dict (fst ta) (modifiers_key_group (fst kv))
                           (snd ta)) m
              | _ => []
              end
            else []).
  - simpl. eauto.
  - intros [k v] Hin. unfold modifiers_ok in H.
    rewrite forallb_forall in H. specialize (H _ Hin). simpl in *.
    destruct (is_modifiers_key k); [|reflexivity].
    destruct v; try discriminate; reflexivity.
Qed.

(** Nothing is left for a second extraction. *)
Lemma extract_dict_modifiers_none (values : dict) :
  forallb no_modifiers_key values = true ->
  extract_dict_modifiers values = Ok ([], values).
Proof.
  intros H. unfold extract_dict_modifiers.
  rewrite mapM_ok with (g := fun _ => []).
  - cbn [bind]. fold no_modifiers_key.
    rewrite (forallb_filter_id no_modifiers_key values H).
    replace (concat (map (fun _ : string * value => @nil value) values))
      with (@nil value); [reflexivity|].
    clear H. induction values as [|a l IH]; simpl; auto.
  - intros [k v] Hin. rewrite forallb_forall in H. specialize (H _ Hin).
    unfold no_modifiers_key in H. simpl in *.
    now destruct (is_modifiers_key k).
Qed.

Lemma filter_no_modifiers_clean (values : dict) :
  forallb no_modifiers_key (filter no_modifiers_key values) = true.
Proof.
  apply forallb_forall. intros x Hx. now apply filter_In in Hx.
Qed.

Lemma extract_explicit_stages_eq (values : dict) :
  extract_explicit_stages values =
  if explicit_ok values
  then Ok (explicit_part values,
           if explicit_given values then ["stages"] else [])
  else Err AssertionError.
Proof.
  unfold extract_explicit_stages, explicit_ok, explicit_part, explicit_given.
  destruct (dict_get "stages" values) as [sv|]; [|reflexivity].
  destruct (truthy sv) eqn:Et; simpl.
  - destruct sv; try reflexivity.
    destruct (forallb (fun kv => is_dict (snd kv)) d) eqn:E.
    + rewrite mapM_ok with (g := fun kv => tag_group (fst kv) (snd kv));
        [reflexivity|].
      intros [k v] Hin. rewrite forallb_forall in E. specialize (E _ Hin).
      simpl in *. destruct v; try discriminate; reflexivity.
    + erewrite mapM_err with (e := AssertionError)
        (ok := fun kv => is_dict (snd kv)); [reflexivity | | | exact E].
      * intros [k v] _ H. simpl in *. destruct v; try discriminate; eauto.
      * intros [k v] _ H. simpl in *. destruct v; try reflexivity; discriminate.
  - destruct sv; try reflexivity. destruct d; [reflexivity | discriminate].
Qed.

Lemma suffix_loop_eq (values : dict) (st : list value) (rk : list string) :
  foldM suffix_stage_step values (st, rk) =
  if suffix_ok values
  then Ok (st ++ suffix_part values,
           rk ++ keys (filter (fun kv => is_stage_key (fst kv)) values))
  else Err TypeError.
Proof.
  unfold suffix_ok, suffix_part.
  revert st rk; induction values as [|[k v] values IH]; intros st rk.
  - simpl. now rewrite !app_nil_r.
  - cbn [foldM forallb filter fst snd]. unfold suffix_stage_step at 1.
    cbn [fst snd]. fold (is_stage_key k).
    destruct (is_stage_key k) eqn:Ek; cbn [negb orb andb bind].
    + destruct v; try reflexivity. cbn [is_dict andb bind]. rewrite IH.
      destruct (forallb _ values); [|reflexivity].
      cbn [map keys fst snd tag_group]. now rewrite <- !app_assoc.
    + apply IH.
Qed.

Lemma explicit_clean (values : dict) :
  dict_get "stages" (filter no_modifiers_key values) = dict_get "stages" values.
Proof.
  apply (dict_get_filter_key (fun k => negb (is_modifiers_key k))). reflexivity.
Qed.

Lemma stage_filter_clean (values : dict) :
  filter (fun kv => is_stage_key (fst kv)) (filter no_modifiers_key values) =
  filter (fun kv => is_stage_key (fst kv)) values.
Proof.
  rewrite filter_twice. apply filter_ext. intros [k v]. simpl.
  unfold no_modifiers_key. simpl.
  destruct (is_stage_key k) eqn:E; [|reflexivity].
  now rewrite (stage_key_not_modifiers _ E).
Qed.

Lemma suffix_ok_clean (values : dict) :
  suffix_ok (filter no_modifiers_key values) = suffix_ok values.
Proof.
  apply forallb_filter_weak. intros [k v]. unfold no_modifiers_key. simpl.
  intros H. apply negb_false_iff in H.
  destruct (is_stage_key k) eqn:E; [|reflexivity].
  apply stage_key_not_modifiers in E. congruence.
Qed.

Lemma existsb_keys_filter (p : string -> bool) (d : dict) (k : string) :
  In k (keys d) ->
  existsb (String.eqb k) (keys (filter (fun kv => p (fst kv)) d)) = p k.
Proof.
  intros Hin. destruct (p k) eqn:E.
  - apply existsb_exists. exists k; split; [|apply String.eqb_refl].
    unfold keys in *. apply in_map_iff in Hin as ([k' v] & Ek & Hin).
    simpl in Ek; subst k'. apply in_map_iff. exists (k, v); split; auto.
    apply filter_In; auto.
  - destruct (existsb _ _) eqn:Ex; [|reflexivity].
    apply existsb_exists in Ex as (k' & Hk' & Eq).
    apply String.eqb_eq in Eq as <-.
    unfold keys in Hk'. apply in_map_iff in Hk' as ([k2 v2] & Ek & Hk').
    simpl in Ek; subst k2. apply filter_In in Hk' as [_ Hp]. simpl in Hp.
    congruence.
Qed.

(** [extract_dict_stages] on a mapping without modifier shorthand. *)
Lemma extract_dict_stages_eq (values : dict) :
  wf_dict values -> forallb no_modifiers_key values = true ->
  extract_dict_stages values =
  if explicit_ok values then
    if suffix_ok values then
      Ok (explicit_part values ++ suffix_part values,
          filter (fun kv => negb (stage_consumed values kv)) values)
    else Err TypeError
  else Err AssertionError.
Proof.
  intros Hwf Hclean. unfold extract_dict_stages.
  rewrite (extract_dict_modifiers_none _ Hclean). cbn [bind truthy app].
  rewrite extract_explicit_stages_eq.
  destruct (explicit_ok values); [|reflexivity]. cbn [bind].
  rewrite suffix_loop_eq.
  destruct (suffix_ok values); [|reflexivity]. cbn [bind].
  rewrite foldM_dict_del; [cbn [bind]; f_equal; f_equal | assumption | | ].
  - apply filter_ext_in. intros [k v] Hin. f_equal.
    unfold stage_consumed. cbn [fst]. rewrite existsb_app.
    rewrite (existsb_keys_filter is_stage_key values k)
      by (apply in_map_iff; exists (k, v); auto).
    rewrite orb_comm. f_equal.
    destruct (explicit_given values); simpl;
      [now rewrite orb_false_r, andb_true_r | now rewrite andb_false_r].
  - assert (Hs : NoDup (keys (filter (fun kv => is_stage_key (fst kv)) values)))
      by now apply keys_filter_nodup.
    destruct (explicit_given values); [|exact Hs].
    constructor; [|exact Hs].
    intros Hin. unfold keys in Hin. apply in_map_iff in Hin as ([k v] & E & Hin).
    simpl in E; subst k. apply filter_In in Hin as [_ Hin]. discriminate.
  - intros k Hk. apply in_app_iff in Hk as [Hk | Hk].
    + unfold explicit_given in Hk.
      destruct (dict_get "stages" values) as [sv|] eqn:E; [|contradiction].
      destruct (truthy sv); [|contradiction].
      destruct Hk as [<- | []].
      apply dict_get_some_in in E. now apply (in_map fst) in E.
    + unfold keys in *. apply in_map_iff in Hk as (x & <- & Hx).
      apply filter_In in Hx as [Hx _]. now apply in_map.
Qed.

Lemma explicit_ok_clean (values : dict) :
  explicit_ok (filter no_modifiers_key values) = explicit_ok values.
Proof. unfold explicit_ok. now rewrite explicit_clean. Qed.

Lemma explicit_part_clean (values : dict) :
  explicit_part (filter no_modifiers_key values) = explicit_part values.
Proof. unfold explicit_part. now rewrite explicit_clean. Qed.

Lemma explicit_given_clean (values : dict) :
  explicit_given (filter no_modifiers_key values) = explicit_given values.
Proof. unfold explicit_given. now rewrite explicit_clean. Qed.

Lemma suffix_part_clean (values : dict) :
  suffix_part (filter no_modifiers_key values) = suffix_part values.
Proof. unfold suffix_part. now rewrite stage_filter_clean. Qed.

Lemma remaining_clean (values : dict) :
  filter (fun kv => negb (stage_consumed (filter no_modifiers_key values) kv))
    (filter no_modifiers_key values) = remaining values.
Proof.
  rewrite filter_twice. apply filter_ext. intros [k v].
  unfold stage_consumed, consumed, no_modifiers_key. cbn [fst].
  rewrite explicit_given_clean.
  destruct (is_modifiers_key k); simpl; [apply andb_false_r | apply andb_true_r].
Qed.

Lemma remaining_wf (values : dict) : wf_dict values -> wf_dict (remaining values).
Proof. apply keys_filter_nodup. Qed.

(** The normalized mapping: the result of [remap_stages], pass by pass. *)
Lemma remap_stages_eq (values : dict) :
  wf_dict values ->
  remap_stages values =
  if modifiers_ok values then
    if explicit_ok values then
      if suffix_ok values then
        Ok [("stages",
             VList (default_part values ++ explicit_part values
                    ++ suffix_part values));
            ("args", VDict (remaining values))]
      else Err TypeError
    else Err AssertionError
  else Err ValidationError.
Proof.
  intros Hwf. unfold remap_stages, default_part.
  rewrite extract_dict_modifiers_eq.
  destruct (modifiers_ok values) eqn:Em; [|reflexivity].
  destruct (extract_dict_modifiers_total _ Em) as [ms ->]. cbn [bind].
  rewrite extract_dict_stages_eq;
    [| now apply keys_filter_nodup | apply filter_no_modifiers_clean].
  rewrite explicit_ok_clean, suffix_ok_clean.
  destruct (explicit_ok values); [|reflexivity].
  destruct (suffix_ok values); [|reflexivity]. cbn [bind].
  rewrite explicit_part_clean, suffix_part_clean, remaining_clean.
  rewrite dict_copy_wf by now apply remaining_wf.
  destruct ms; reflexivity.
Qed.

(** ** Error classes of validation *)









Lemma Recipe_new_eq : Recipe_new = Ok (mkRecipe None [] []).
Proof. reflexivity. Qed.

(** ** Ingestion of a string *)



(** ** Lists that are not lists of modifiers *)

(** C10: a non-empty list whose elements are not all Modifier instances is
    not converted into a Recipe; with no target stage and no override,
    [simplify_recipe] returns that list itself. *)
Theorem simplify_recipe_list_unchanged (env : Env) (l : list elem) :
  l <> [] -> forallb is_modifier l = false ->
  prepare_recipe env (InList l) = Ok (InList l) /\
  simplify_recipe env (Some (InList l)) None None = Ok (InList l).
Proof.
  intros Hne Hmod. unfold simplify_recipe, prepare_recipe.
  rewrite Hmod. destruct l; [contradiction|]. split; reflexivity.
Qed.

Lemma simplify_recipe_list_unchanged_witness :
  simplify_recipe example_env (Some (InList [EStr "a.yaml"; EStr "b.yaml"]))
    None None = Ok (InList [EStr "a.yaml"; EStr "b.yaml"]).
Proof.
  apply (simplify_recipe_list_unchanged example_env
           [EStr "a.yaml"; EStr "b.yaml"]); [discriminate | reflexivity].
Defined.

(** ** Structural normalization *)







Lemma Recipe_fields_normal (st : list value) (a : dict) :
  Recipe_fields [("stages", VList st); ("args", VDict a)] =
  s <- mapM RecipeStage_validate st ;; Ok (mkRecipe None a s).
Proof. reflexivity. Qed.

(** C9: a top-level [version] key is not consumed by normalization: it is
    placed in the args of the Recipe like every key that is not a stage
    shape, and the [version] field of a Recipe parsed from a mapping is
    None. *)
Theorem model_validate_version_in_args (values : dict) (r : Recipe) :
  wf_dict values -> model_validate values = Ok r ->
  version r = None /\
  args r = remaining values /\
  dict_get "version" (args r) = dict_get "version" values.
Proof.
  intros Hwf. unfold model_validate. rewrite (remap_stages_eq values Hwf).
  destruct (modifiers_ok values), (explicit_ok values), (suffix_ok values);
    try discriminate.
  cbn [bind]. rewrite Recipe_fields_normal.
  destruct (mapM RecipeStage_validate _) as [s|]; [|discriminate].
  cbn [bind]. intros [= <-]. cbn [version args]. repeat split.
  apply (dict_get_filter_key (fun k => negb (consumed values k))).
  reflexivity.
Qed.

Lemma model_validate_version_in_args_witness :
  version
    (mkRecipe None [("version", VStr "1.0"); ("lr", VInt 3)]
       [mkRecipeStage "default" None
          [mkRecipeModifier "M1" "default" [("a", VInt 1)]];
        mkRecipeStage "s1" None [];
        mkRecipeStage "pruning" (Some "train") []]) = None /\
  dict_get "version" [("version", VStr "1.0"); ("lr", VInt 3)] =
  dict_get "version" example_values.
Proof.
  pose proof (model_validate_version_in_args example_values _
                ltac:(solve_wf) eq_refl) as (H1 & _ & H3).
  exact (conj H1 H3).
Defined.

(** ** Combination *)

Lemma last_cons {A : Type} (a d : A) (l : list A) : last (a :: l) d = last l a.
Proof.
  revert a d; induction l as [|b l IH]; intros a d; [reflexivity|].
  change (last (a :: b :: l) d) with (last (b :: l) d).
  now rewrite !IH.
Qed.

Lemma dict_get_rev_wf {V : Type} (d : list (string * V)) (k : string) :
  wf_dict d -> dict_get k (rev d) = dict_get k d.
Proof.
  intros Hwf. destruct (dict_get k d) as [v|] eqn:E.
  - apply dict_get_in.
    + unfold wf_dict, keys in *. rewrite map_rev. now apply NoDup_rev.
    + apply in_rev. rewrite rev_involutive. now apply dict_get_some_in.
  - apply dict_get_none. apply dict_get_none in E. unfold keys in *.
    rewrite map_rev. now rewrite <- in_rev.
Qed.

Lemma simplify_recipe_declared (env : Env) (i : RecipeInput) (r : Recipe) :
  declared_input i = true -> create_instance env i None = Ok r ->
  simplify_recipe env (Some i) None None = Ok (InRecipe r).
Proof.
  destruct i; try discriminate; intros _ H.
  - unfold simplify_recipe, prepare_recipe. now rewrite H.
  - simpl in H. now injection H as ->.
Qed.

Lemma combine_loop (env : Env) (inputs : list RecipeInput) (rs : list Recipe) :
  Forall (fun i => declared_input i = true) inputs ->
  Forall2 (fun i r => create_instance env i None = Ok r) inputs rs ->
  forall combined,
    foldM (combine_step env) inputs combined =
    Ok (mkRecipe (last (map version rs) (version combined))
          (fold_left (fun acc r => dict_update acc (args r)) rs (args combined))
          (stages combined ++ concat (map stages rs))).
Proof.
  intros Hdecl Hres. induction Hres as [|i r inputs rs Hi _ IH];
    intros combined.
  - simpl. rewrite app_nil_r. now destruct combined.
  - inversion Hdecl as [|? ? Hd Hdecl']; subst.
    cbn [foldM]. unfold combine_step at 1.
    rewrite (simplify_recipe_declared env i r Hd Hi). cbn [bind].
    rewrite (IH Hdecl'). cbn [version args stages map concat fold_left].
    now rewrite last_cons, <- app_assoc.
Qed.

Lemma combined_args_lookup_from (rs : list Recipe) (k : string) :
  Forall (fun r => wf_dict (args r)) rs ->
  forall acc : dict,
    dict_get k (fold_left (fun acc r => dict_update acc (args r)) rs acc) =
    fold_left (fun acc r => match dict_get k (args r) with
                            | Some v => Some v
                            | None => acc
                            end) rs (dict_get k acc).
Proof.
  induction rs as [|r rs IH]; intros Hwf acc; [reflexivity|].
  inversion Hwf as [|? ? Hr Hrs]; subst. cbn [fold_left].
  rewrite (IH Hrs). f_equal.
  now rewrite dict_get_update, dict_get_rev_wf.
Qed.

Lemma combined_args_lookup (rs : list Recipe) (k : string) :
  Forall (fun r => wf_dict (args r)) rs ->
  dict_get k (combined_args rs) = last_binding k rs.
Proof. intros H. exact (combined_args_lookup_from rs k H []). Qed.

(** C2: for a list of inputs, each a string or a Recipe that ingestion
    resolves, [simplify_combine_recipes] returns one Recipe whose stages are
    the concatenation of the stages of the inputs in order, whose args are
    the union of their args with later recipes overwriting earlier ones, and
    whose version is that of the last input; for the empty list it returns
    the Recipe with version None, no args and no stages. *)
Theorem simplify_combine_recipes_concat (env : Env)
  (inputs : list RecipeInput) (rs : list Recipe) :
  Forall (fun i => declared_input i = true) inputs ->
  Forall2 (fun i r => create_instance env i None = Ok r) inputs rs ->
  simplify_combine_recipes env [] = Ok empty_recipe /\
  simplify_combine_recipes env inputs =
  Ok (mkRecipe (last (map version rs) None) (combined_args rs)
        (concat (map stages rs))) /\
  (Forall (fun r => wf_dict (args r)) rs ->
   forall k, dict_get k (combined_args rs) = last_binding k rs).
Proof.
  intros Hdecl Hres. split; [reflexivity|]. split.
  - unfold simplify_combine_recipes. rewrite Recipe_new_eq. cbn [bind].
    now rewrite (combine_loop env inputs rs Hdecl Hres).
  - intros Hwf k. now apply combined_args_lookup.
Qed.

Lemma simplify_combine_recipes_concat_witness :
  simplify_combine_recipes example_env
    [InRecipe example_recipe; InStr "{}";
     InRecipe (mkRecipe (Some "2.0") [("k", VInt 5)]
                 [mkRecipeStage "s1" None []])] =
  Ok (mkRecipe (Some "2.0") [("k", VInt 5); ("lr", VInt 3)]
        (stages example_recipe ++ [mkRecipeStage "s1" None []])).
Proof.
  refine (proj1 (proj2 (simplify_combine_recipes_concat example_env
            [InRecipe example_recipe; InStr "{}";
             InRecipe (mkRecipe (Some "2.0") [("k", VInt 5)]
                         [mkRecipeStage "s1" None []])]
            [example_recipe; empty_recipe;
             mkRecipe (Some "2.0") [("k", VInt 5)]
               [mkRecipeStage "s1" None []]] _ _))).
  - repeat constructor.
  - repeat constructor.
Defined.

(** ** Simplification *)

(** C3, the claim as stated fails: with an empty list of target names given,
    no stage of the input has its group in the target set, and
    [simplify_recipe] keeps every stage. *)
Lemma simplify_recipe_empty_target_keeps_all :
  simplify_recipe example_env (Some (InRecipe example_recipe))
    (Some (TList [])) None = Ok (InRecipe example_recipe) /\
  filter (fun stage => py_in (s_group stage) (TList []))
    (stages example_recipe) = [] /\
  stages example_recipe <> [].
Proof. repeat split. discriminate. Qed.

Lemma existsb_eqb_in (g : string) (names : list string) :
  existsb (String.eqb g) names = true <-> In g names.
Proof.
  rewrite existsb_exists. split.
  - intros (x & Hx & E). apply String.eqb_eq in E. now subst.
  - intros H. exists g. split; [assumption | apply String.eqb_refl].
Qed.

Lemma simplify_recipe_empty_input (env : Env)
  (t : option RecipeStageInput) (o : option RecipeArgsInput) :
  simplify_recipe env None t o = Ok (InRecipe empty_recipe) /\
  simplify_recipe env (Some (InList [])) t o = Ok (InRecipe empty_recipe).
Proof. split; reflexivity. Qed.

Lemma simplify_recipe_resolved (env : Env) (i : RecipeInput) (r : Recipe)
  (t : option RecipeStageInput) (o : option dict) :
  i <> InList [] -> prepare_recipe env i = Ok (InRecipe r) ->
  wf_dict (args r) ->
  simplify_recipe env (Some i) t (option_map ADict o) =
  Ok (InRecipe (mkRecipe (version r) (merged_args o r) (kept_stages t r))).
Proof.
  intros Hne Hprep Hwf.
  assert (E : simplify_recipe env (Some i) t (option_map ADict o) =
              recipe <- prepare_recipe env i ;;
              recipe <- filter_stages t recipe ;;
              recipe <- apply_overrides (option_map ADict o) recipe ;;
              Ok recipe).
  { destruct i as [| | |[|x l]]; try reflexivity. contradiction. }
  rewrite E, Hprep. cbn [bind]. clear E.
  assert (Ef : filter_stages t (InRecipe r) =
               Ok (InRecipe (mkRecipe (version r) (args r) (kept_stages t r)))).
  { unfold filter_stages, kept_stages. destruct t as [t|]; [|now destruct r].
    destruct (target_truthy (Some t)); [reflexivity | now destruct r]. }
  rewrite Ef. cbn [bind]. unfold apply_overrides, merged_args.
  destruct o as [d|]; [|reflexivity]. cbn [option_map].
  destruct (override_truthy (Some (ADict d))) eqn:Et; cbn [bind version args stages].
  - now rewrite dict_copy_wf.
  - destruct d; [reflexivity | discriminate].
Qed.

(** C3 (amended): [simplify_recipe] on an input resolved to a Recipe: when a
    non-empty list of target names is given, the stages of the result are
    exactly the stages of the input whose group is in the list, in their
    original order (an absent or empty target keeps every stage); when
    overrides are given, the args of the result are the args of the input
    merged with the overrides, the override value winning on a key of both;
    on None or the empty list it returns the empty Recipe without resolving
    anything. *)
Theorem simplify_recipe_filter_override (env : Env) (i : RecipeInput)
  (r : Recipe) (t : option RecipeStageInput) (o : option dict) :
  i <> InList [] -> prepare_recipe env i = Ok (InRecipe r) ->
  wf_dict (args r) ->
  simplify_recipe env (Some i) t (option_map ADict o) =
    Ok (InRecipe (mkRecipe (version r) (merged_args o r) (kept_stages t r))) /\
  (forall names, names <> [] ->
     kept_stages (Some (TList names)) r =
     filter (fun stage => if in_dec string_dec (s_group stage) names
                          then true else false) (stages r)) /\
  kept_stages None r = stages r /\
  kept_stages (Some (TList [])) r = stages r /\
  (forall d k v, wf_dict d -> dict_get k d = Some v ->
     dict_get k (merged_args (Some d) r) = Some v) /\
  (forall d k, dict_get k d = None ->
     dict_get k (merged_args (Some d) r) = dict_get k (args r)) /\
  (forall t' o', simplify_recipe env None t' o' = Ok (InRecipe empty_recipe) /\
     simplify_recipe env (Some (InList [])) t' o' = Ok (InRecipe empty_recipe)).
Proof.
  intros Hne Hprep Hwf. repeat split.
  - now apply simplify_recipe_resolved.
  - intros names Hn. unfold kept_stages.
    replace (target_truthy (Some (TList names))) with true
      by (destruct names; [contradiction | reflexivity]).
    apply filter_ext. intros s. cbn [py_in].
    destruct (in_dec string_dec (s_group s) names) as [Hin | Hni].
    + now apply existsb_eqb_in.
    + destruct (existsb _ names) eqn:E; [|reflexivity].
      apply existsb_eqb_in in E. contradiction.
  - intros d k v Hd E. unfold merged_args.
    now rewrite dict_get_update, dict_get_rev_wf, E.
  - intros d k E. unfold merged_args. rewrite dict_get_update.
    replace (dict_get k (rev d)) with (@None value); [reflexivity|].
    symmetry. apply dict_get_none. apply dict_get_none in E.
    unfold keys in *. rewrite map_rev. now rewrite <- in_rev.
Qed.

Lemma simplify_recipe_filter_override_witness :
  simplify_recipe example_env (Some (InRecipe example_recipe))
    (Some (TList ["s1"])) (Some (ADict [("k", VInt 5)])) =
  Ok (InRecipe
        (mkRecipe (Some "1.0") [("k", VInt 5); ("lr", VInt 3)]
           [mkRecipeStage "s1" None [mkRecipeModifier "M1" "g" []];
            mkRecipeStage "s1" None [mkRecipeModifier "M2" "g" []]])).
Proof.
  refine (proj1 (simplify_recipe_filter_override example_env
            (InRecipe example_recipe) example_recipe (Some (TList ["s1"]))
            (Some [("k", VInt 5)]) _ _ _)).
  - discriminate.
  - reflexivity.
  - solve_wf.
Defined.

(** ** Decimal suffixes *)

Section DecimalFacts.
Local Open Scope string_scope.

Lemma str_of_nat_inj (n m : nat) : str_of_nat n = str_of_nat m -> n = m.
Proof.
  unfold str_of_nat. intros H.
  apply Unsigned.to_uint_inj.
  pose proof (NilEmpty.usu (Nat.to_uint n)) as Hn.
  pose proof (NilEmpty.usu (Nat.to_uint m)) as Hm.
  rewrite H in Hn. congruence.
Qed.

Lemma string_of_uint_digits (d : Decimal.uint) :
  all_digits (NilEmpty.string_of_uint d) = true.
Proof. induction d; simpl; auto. Qed.

Lemma str_of_nat_digits (n : nat) : all_digits (str_of_nat n) = true.
Proof. apply string_of_uint_digits. Qed.

Lemma str_of_nat_nonempty (n : nat) : str_of_nat n <> "".
Proof.
  unfold str_of_nat. intros H.
  pose proof (NilEmpty.usu (Nat.to_uint n)) as Hn. rewrite H in Hn.
  simpl in Hn. injection Hn as Hn.
  assert (E : Nat.of_uint (Nat.to_uint n) = n) by apply Unsigned.of_to.
  rewrite <- Hn in E. simpl in E. subst n. discriminate.
Qed.

Lemma all_digits_last (s : string) :
  all_digits s = true -> s <> "" ->
  exists c, last_char s = Some c /\ is_digit c = true.
Proof.
  induction s as [|c s IH]; [contradiction|]. simpl. intros H _.
  apply andb_true_iff in H as [Hc Hs].
  destruct s as [|c' s']; [eauto|].
  apply IH; [assumption | discriminate].
Qed.

(** A decimal suffix after an underscore is read off unambiguously. *)
Lemma underscore_digits_inj (p q d e : string) :
  all_digits d = true -> all_digits e = true ->
  p ++ "_" ++ d = q ++ "_" ++ e -> p = q /\ d = e.
Proof.
  intros Hd He. revert q; induction p as [|x p IH]; intros [|y q] H; simpl in H.
  - injection H as H. auto.
  - injection H as <- H. exfalso. subst d. clear -Hd.
    induction q as [|z q IHq]; simpl in Hd; [discriminate|].
    apply andb_true_iff in Hd as [_ Hd]. auto.
  - injection H as -> H. exfalso. subst e. clear -He.
    induction p as [|z p IHp]; simpl in He; [discriminate|].
    apply andb_true_iff in He as [_ He]. auto.
  - injection H as -> H. destruct (IH _ H) as [-> ->]. auto.
Qed.

Lemma last_char_suffixed (p : string) (i : nat) :
  exists c, last_char (p ++ "_" ++ str_of_nat i) = Some c /\ is_digit c = true.
Proof.
  rewrite last_char_append by discriminate.
  change ("_" ++ str_of_nat i) with (String "_" "" ++ str_of_nat i).
  rewrite last_char_append by apply str_of_nat_nonempty.
  apply all_digits_last;
    [apply str_of_nat_digits | apply str_of_nat_nonempty].
Qed.

Lemma final_name_inj (g h : string) (len len' i j : nat) :
  final_name (g ++ "_stage") len i = final_name (h ++ "_stage") len' j ->
  g = h /\ ((1 <? len)%nat = true -> (1 <? len')%nat = true -> i = j).
Proof.
  unfold final_name.
  destruct (1 <? len)%nat, (1 <? len')%nat; intros H.
  - apply underscore_digits_inj in H as [H1 H2]; auto using str_of_nat_digits.
    apply append_inj_l in H1. apply str_of_nat_inj in H2. auto.
  - exfalso. apply (f_equal last_char) in H.
    destruct (last_char_suffixed (g ++ "_stage") i) as (c & E & Hc).
    rewrite E, last_char_append in H by discriminate.
    simpl in H. injection H as ->. discriminate.
  - exfalso. apply (f_equal last_char) in H.
    destruct (last_char_suffixed (h ++ "_stage") j) as (c & E & Hc).
    rewrite E, last_char_append in H by discriminate.
    simpl in H. injection H as <-. discriminate.
  - apply append_inj_l in H. split; [assumption | discriminate].
Qed.

Lemma final_name_last (g : string) (len i : nat) :
  exists c, last_char (final_name (g ++ "_stage") len i) = Some c /\
            (c = "e"%char \/ is_digit c = true).
Proof.
  unfold final_name. destruct (1 <? len)%nat.
  - destruct (last_char_suffixed (g ++ "_stage") i) as (c & E & Hc). eauto.
  - rewrite last_char_append by discriminate. simpl. eauto.
Qed.
End DecimalFacts.

(** ** Serialization: the loops as folds over the typed tree *)

Section DictMap.
Context {V W : Type}.
Variable fk : string -> string.
Variable fv : V -> W.
Hypothesis fk_inj : forall a b, fk a = fk b -> a = b.

Lemma fk_eqb (a b : string) : String.eqb (fk a) (fk b) = String.eqb a b.
Proof.
  destruct (String.eqb_spec a b) as [->|Hne]; [apply String.eqb_refl|].
  apply String.eqb_neq. intros H. apply Hne. now apply fk_inj.
Qed.

Lemma dict_get_map (d : list (string * V)) (k : string) :
  dict_get (fk k) (map (fun e => (fk (fst e), fv (snd e))) d) =
  option_map fv (dict_get k d).
Proof.
  induction d as [|[k' v] d IH]; simpl; [reflexivity|].
  rewrite fk_eqb. destruct (String.eqb k k'); auto.
Qed.

Lemma dict_set_map (d : list (string * V)) (k : string) (v : V) :
  dict_set (fk k) (fv v) (map (fun e => (fk (fst e), fv (snd e))) d) =
  map (fun e => (fk (fst e), fv (snd e))) (dict_set k v d).
Proof.
  induction d as [|[k' v'] d IH]; simpl; [reflexivity|].
  rewrite fk_eqb. destruct (String.eqb k k'); simpl; [reflexivity|].
  now rewrite IH.
Qed.

Lemma keys_map (d : list (string * V)) :
  keys (map (fun e => (fk (fst e), fv (snd e))) d) = map fk (keys d).
Proof. unfold keys. rewrite !map_map. reflexivity. Qed.
End DictMap.

Lemma dict_set_last {V : Type} (d : list (string * V)) (k : string) (x v : V) :
  ~ In k (keys d) -> dict_set k v (d ++ [(k, x)]) = d ++ [(k, v)].
Proof.
  induction d as [|[k' v'] d IH]; simpl; intros H.
  - now rewrite String.eqb_refl.
  - destruct (String.eqb_spec k k') as [->|Hne]; [tauto|].
    rewrite IH; tauto.
Qed.

Lemma suffix_inj (suffix a b : string) :
  (a ++ suffix)%string = (b ++ suffix)%string -> a = b.
Proof. apply append_inj_l. Qed.

Lemma foldM_ok_fold {A B S : Type} (f : S -> B -> result S) (g : S -> A -> S)
  (h : A -> B) (l : list A) (s : S) :
  (forall s a, f s (h a) = Ok (g s a)) ->
  foldM f (map h l) s = Ok (fold_left g l s).
Proof.
  intros H. revert s; induction l as [|a l IH]; intros s; simpl; [reflexivity|].
  rewrite H. simpl. apply IH.
Qed.

(** [Recipe.dict]: the stages regrouped by name. *)
Lemma dict_stage_step_eq (groups : list (string * list RecipeStage))
  (s : RecipeStage) :
  dict_stage_step (to_stages groups) (stage_dump s) =
  Ok (to_stages (group_add s groups)).
Proof.
  unfold dict_stage_step. cbn [stage_dump getitem dict_get String.eqb Ascii.eqb
    Bool.eqb bind as_str].
  replace (dict_del "group" (stage_dump s)) with (Ok (body_dump s))
    by reflexivity.
  cbn [bind]. unfold group_add, dict_mem, to_stages.
  pose proof (dict_get_map (fun k => (k ++ "_stage")%string) (map body_dump)
                (suffix_inj "_stage") groups (s_group s)) as Hget.
  cbn beta in Hget. rewrite Hget.
  destruct (dict_get (s_group s) groups) as [l|] eqn:E; cbn [option_map negb].
  - rewrite Hget. cbn [option_map]. f_equal.
    rewrite <- (dict_set_map (fun k => (k ++ "_stage")%string) (map body_dump)
                  (suffix_inj "_stage")).
    now rewrite map_app.
  - change (@nil dict) with (map body_dump []).
    rewrite (dict_set_map (fun k => (k ++ "_stage")%string) (map body_dump)
               (suffix_inj "_stage")).
    apply dict_get_none in E. rewrite (dict_set_fresh _ _ _ E).
    rewrite (dict_get_map (fun k => (k ++ "_stage")%string) (map body_dump)
               (suffix_inj "_stage")).
    rewrite dict_get_app.
    replace (dict_get (s_group s) groups) with (@None (list RecipeStage))
      by (symmetry; now apply dict_get_none).
    cbn [dict_get option_map]. rewrite String.eqb_refl.
    change (option_map (map body_dump) (Some [])) with (Some (@nil dict)).
    cbv iota. f_equal.
    change ([] ++ [body_dump s]) with (map body_dump [s]).
    rewrite (dict_set_map (fun k => (k ++ "_stage")%string) (map body_dump)
               (suffix_inj "_stage")).
    now rewrite dict_set_last.
Qed.

Lemma Recipe_dict_eq (r : Recipe) :
  Recipe_dict r =
  Ok (mkRecipeDict (opt_str (version r)) (VDict (args r))
        (to_stages (grouped (stages r)))).
Proof.
  unfold Recipe_dict, grouped.
  assert (H : forall ss groups,
            foldM dict_stage_step (map stage_dump ss) (to_stages groups) =
            Ok (to_stages (fold_left (fun groups s => group_add s groups)
                             ss groups))).
  { induction ss as [|s ss IH]; intros groups; simpl; [reflexivity|].
    rewrite dict_stage_step_eq. simpl. apply IH. }
  change (@nil (string * list dict)) with (to_stages []).
  now rewrite H.
Qed.

Lemma stage_dict_value_eq (by_group : list (string * list (string * dict))) :
  stage_dict_value by_group =
  map (fun e => ((fst e ++ "_modifiers")%string, inner_value (snd e))) by_group.
Proof. reflexivity. Qed.

(** [get_yaml_serializable_stage_dict]: the modifiers keyed by group and
    type. *)
Lemma serializable_step_eq (by_group : list (string * list (string * dict)))
  (m : RecipeModifier) :
  serializable_step (stage_dict_value by_group) (modifier_dump m) =
  Ok (stage_dict_value (modifier_add m by_group)).
Proof.
  unfold serializable_step, modifier_dump, modifier_dict.
  cbn [getitem dict_get String.eqb Ascii.eqb Bool.eqb bind as_str].
  unfold modifier_add, dict_mem. rewrite !stage_dict_value_eq.
  pose proof (fun d k => dict_get_map (fun k => (k ++ "_modifiers")%string)
                inner_value (suffix_inj "_modifiers") d k) as Hget.
  pose proof (fun d k v => dict_set_map (fun k => (k ++ "_modifiers")%string)
                inner_value (suffix_inj "_modifiers") d k v) as Hset.
  cbn beta in Hget, Hset. rewrite Hget.
  destruct (dict_get (m_group m) by_group) as [inner|] eqn:E;
    cbn [option_map negb].
  - rewrite Hget, E. cbn [option_map]. unfold inner_value at 1.
    pose proof (dict_set_map (fun k => k) VDict (fun a b H => H) inner
                  (m_type m) (m_args m)) as Hin.
    cbn beta in Hin. rewrite Hin.
    rewrite <- Hset. reflexivity.
  - change (VDict []) with (inner_value []). rewrite Hset.
    apply dict_get_none in E. rewrite (dict_set_fresh _ _ _ E).
    rewrite Hget, dict_get_app.
    replace (dict_get (m_group m) by_group)
      with (@None (list (string * dict)))
      by (symmetry; now apply dict_get_none).
    cbn [dict_get option_map]. rewrite String.eqb_refl.
    change (option_map inner_value (Some [])) with (Some (VDict [])).
    cbv iota. cbn [dict_set].
    pose proof (Hset (by_group ++ [(m_group m, [])]) (m_group m)
                  [(m_type m, m_args m)]) as Hfin.
    rewrite (dict_set_last by_group (m_group m) [] _ E) in Hfin.
    exact (f_equal Ok Hfin).
Qed.

Lemma get_yaml_serializable_stage_dict_eq (ms : list RecipeModifier) :
  get_yaml_serializable_stage_dict (map modifier_dump ms) =
  Ok (stage_dict_value (regrouped ms)).
Proof.
  unfold get_yaml_serializable_stage_dict, regrouped.
  change (@nil (string * value)) with (stage_dict_value []).
  generalize (@nil (string * list (string * dict))) as by_group.
  induction ms as [|m ms IH]; intros by_group; [reflexivity|].
  cbn [map foldM fold_left].
  rewrite serializable_step_eq. cbn [bind]. apply IH.
Qed.

Lemma yaml_stage_step_eq (stage_name : string) (len idx : nat)
  (yaml_recipe_dict : dict) (s : RecipeStage) :
  yaml_stage_step stage_name len yaml_recipe_dict (idx, body_dump s) =
  Ok (dict_set (final_name stage_name len idx) (VDict (serialized_stage s))
        yaml_recipe_dict).
Proof.
  unfold yaml_stage_step, body_dump.
  cbn [fst snd getitem dict_get String.eqb Ascii.eqb Bool.eqb bind].
  rewrite get_yaml_serializable_stage_dict_eq. cbn [bind].
  unfold serialized_stage, final_name.
  destruct (s_run_type s) as [rt|]; cbn [opt_str truthy]; [|reflexivity].
  destruct (String.eqb rt ""); reflexivity.
Qed.

Lemma yaml_stage_loop_eq (stage_name : string) (len : nat)
  (l : list RecipeStage) :
  forall (k : nat) (yaml_recipe_dict : dict),
    foldM (yaml_stage_step stage_name len)
      (combine (seq k (length l)) (map body_dump l)) yaml_recipe_dict =
    Ok (dict_update yaml_recipe_dict
          (map (fun ix => (final_name stage_name len (fst ix),
                           VDict (serialized_stage (snd ix))))
             (combine (seq k (length l)) l))).
Proof.
  induction l as [|s l IH]; intros k y; [reflexivity|].
  cbn [length seq map combine foldM].
  rewrite yaml_stage_step_eq. cbn [bind]. rewrite IH. reflexivity.
Qed.

Lemma dict_update_app {V : Type} (d a b : list (string * V)) :
  dict_update d (a ++ b) = dict_update (dict_update d a) b.
Proof. unfold dict_update. apply fold_left_app. Qed.

Lemma yaml_name_loop_eq (groups : list (string * list RecipeStage)) :
  forall yaml_recipe_dict : dict,
    foldM yaml_name_step (to_stages groups) yaml_recipe_dict =
    Ok (dict_update yaml_recipe_dict (writes groups)).
Proof.
  induction groups as [|[g l] groups IH]; intros y; [reflexivity|].
  cbn [to_stages map foldM fst snd]. unfold yaml_name_step at 1.
  cbn [fst snd]. unfold enumerate at 1. rewrite !length_map.
  rewrite yaml_stage_loop_eq. cbn [bind].
  fold (to_stages groups). rewrite IH.
  cbn [writes flat_map fst snd]. rewrite dict_update_app. reflexivity.
Qed.

Lemma attributes_eq (r : Recipe) :
  attributes r =
  (match version r with
   | Some v => if String.eqb v "" then [] else [("version", VStr v)]
   | None => []
   end) ++
  (match args r with [] => [] | _ => [("args", VDict (args r))] end).
Proof.
  unfold attributes, yaml_attribute.
  destruct (version r) as [v|]; cbn [opt_str truthy].
  - destruct (String.eqb v ""); destruct (args r); reflexivity.
  - destruct (args r); reflexivity.
Qed.

(** [_get_yaml_dict]: the attributes, then one write per stage. *)
Lemma get_yaml_dict_eq (r : Recipe) :
  _get_yaml_dict r =
  Ok (dict_update (attributes r) (writes (grouped (stages r)))).
Proof.
  unfold _get_yaml_dict. rewrite Recipe_dict_eq. cbn [bind d_version d_args d_stages].
  now rewrite yaml_name_loop_eq.
Qed.

(** ** The groups of [Recipe.dict] *)

Lemma grouped_snoc (ss : list RecipeStage) (s : RecipeStage) :
  grouped (ss ++ [s]) = group_add s (grouped ss).
Proof. unfold grouped. now rewrite fold_left_app. Qed.

Lemma wf_dict_snoc {V : Type} (d : list (string * V)) (k : string) (v : V) :
  wf_dict d -> ~ In k (keys d) -> wf_dict (d ++ [(k, v)]).
Proof.
  unfold wf_dict, keys. intros Hwf Hk. rewrite map_app.
  apply NoDup_app; [assumption | repeat constructor; auto |].
  intros a Ha [<- | []]. contradiction.
Qed.

Lemma wf_dict_set {V : Type} (d : list (string * V)) (k : string) (v : V) :
  wf_dict d -> wf_dict (dict_set k v d).
Proof.
  intros Hwf. destruct (in_dec string_dec k (keys d)) as [Hin | Hni].
  - unfold wf_dict. now rewrite keys_dict_set_in.
  - rewrite dict_set_fresh by assumption. now apply wf_dict_snoc.
Qed.

Lemma grouped_spec (ss : list RecipeStage) :
  wf_dict (grouped ss) /\
  forall g, dict_get g (grouped ss) =
            match filter (same_group g) ss with
            | [] => None
            | l => Some l
            end.
Proof.
  induction ss as [|s ss [IHwf IH]] using rev_ind; [split; [constructor | reflexivity]|].
  rewrite grouped_snoc. unfold group_add. split.
  - destruct (dict_get (s_group s) (grouped ss)) eqn:E.
    + now apply wf_dict_set.
    + apply wf_dict_snoc; [assumption | now apply dict_get_none].
  - intros g. rewrite filter_app. cbn [filter]. unfold same_group at 2.
    specialize (IH g) as IHg. pose proof (IH (s_group s)) as IHs.
    destruct (dict_get (s_group s) (grouped ss)) as [l|] eqn:E.
    + rewrite dict_get_set.
      destruct (String.eqb_spec g (s_group s)) as [->|Hne].
      * rewrite String.eqb_refl.
        destruct (filter (same_group (s_group s)) ss) as [|x l'];
          [discriminate|]. injection IHs as ->. reflexivity.
      * replace (String.eqb (s_group s) g) with false
          by (symmetry; apply String.eqb_neq; congruence).
        now rewrite app_nil_r.
    + rewrite dict_get_app, IHg.
      destruct (String.eqb_spec g (s_group s)) as [->|Hne].
      * rewrite String.eqb_refl.
        destruct (filter (same_group (s_group s)) ss) as [|x l'];
          [|discriminate]. cbn [dict_get app]. now rewrite String.eqb_refl.
      * replace (String.eqb (s_group s) g) with false
          by (symmetry; apply String.eqb_neq; congruence).
        rewrite app_nil_r.
        destruct (filter (same_group g) ss); [|reflexivity].
        cbn [dict_get]. now apply String.eqb_neq in Hne as ->.
Qed.

Lemma grouped_in (ss : list RecipeStage) (g : string) (l : list RecipeStage) :
  In (g, l) (grouped ss) -> l = filter (same_group g) ss /\ l <> [].
Proof.
  intros Hin. destruct (grouped_spec ss) as [Hwf Hget].
  apply (dict_get_in _ _ _ Hwf) in Hin. rewrite Hget in Hin.
  destruct (filter (same_group g) ss); [discriminate|].
  injection Hin as <-. split; [reflexivity | discriminate].
Qed.

Lemma grouped_has (ss : list RecipeStage) (s : RecipeStage) :
  In s ss ->
  In (s_group s, filter (same_group (s_group s)) ss) (grouped ss).
Proof.
  intros Hin. destruct (grouped_spec ss) as [_ Hget].
  apply dict_get_some_in. rewrite Hget.
  destruct (filter (same_group (s_group s)) ss) eqn:E; [|reflexivity].
  assert (H : In s (filter (same_group (s_group s)) ss)).
  { apply filter_In. split; [assumption | apply String.eqb_refl]. }
  rewrite E in H. contradiction.
Qed.

(** ** Positions within a group *)

Lemma nth_error_enumerate {A : Type} (l : list A) (i : nat) (x : A) :
  nth_error l i = Some x <-> In (i, x) (enumerate l).
Proof.
  unfold enumerate.
  assert (H : forall k, nth_error l i = Some x <->
                        In (k + i, x) (combine (seq k (length l)) l)).
  { revert i; induction l as [|a l IH]; intros i k; simpl.
    - destruct i; split; try discriminate; contradiction.
    - destruct i as [|i]; simpl.
      + split.
        * intros [= <-]. left. f_equal. lia.
        * intros [[= _ <-] | Hin]; [reflexivity|].
          apply in_combine_l in Hin. apply in_seq in Hin. lia.
      + rewrite (IH i (S k)). replace (S k + i) with (k + S i) by lia.
        split; [now right|]. intros [[= Hk _] | Hin]; [lia | assumption]. }
  apply (H 0).
Qed.

Lemma keys_enumerate {A B : Type} (f : nat -> string) (g : A -> B)
  (l : list A) :
  keys (map (fun ix => (f (fst ix), g (snd ix))) (enumerate l)) =
  map f (seq 0 (length l)).
Proof.
  unfold keys, enumerate. rewrite map_map. cbn [fst].
  generalize 0 as k. induction l as [|a l IH]; intros k; [reflexivity|].
  simpl. now rewrite IH.
Qed.

Lemma filter_nth {A : Type} (f : A -> bool) (l : list A) (p : nat) (x : A) :
  nth_error l p = Some x -> f x = true ->
  nth_error (filter f l) (length (filter f (firstn p l))) = Some x.
Proof.
  revert p; induction l as [|a l IH]; intros p; [destruct p; discriminate|].
  destruct p as [|p]; simpl.
  - intros [= ->] ->. reflexivity.
  - intros Hp Hx. destruct (f a); simpl; auto.
Qed.

Lemma filter_nth_inv {A : Type} (f : A -> bool) (l : list A) (i : nat) (x : A) :
  nth_error (filter f l) i = Some x ->
  exists p, nth_error l p = Some x /\ f x = true /\
            length (filter f (firstn p l)) = i.
Proof.
  revert i; induction l as [|a l IH]; intros i; simpl;
    [destruct i; discriminate|].
  destruct (f a) eqn:Ea.
  - destruct i as [|i]; simpl.
    + intros [= ->]. exists 0. auto.
    + intros H. destruct (IH _ H) as (p & Hp & Hx & Hl).
      exists (S p). simpl. rewrite Ea. simpl. auto.
  - intros H. destruct (IH _ H) as (p & Hp & Hx & Hl).
    exists (S p). simpl. rewrite Ea. auto.
Qed.

Lemma final_name_emitted (ss : list RecipeStage) (p : nat) (s : RecipeStage) :
  final_name (s_group s ++ "_stage")
    (length (filter (same_group (s_group s)) ss))
    (length (filter (same_group (s_group s)) (firstn p ss))) =
  emitted_key ss p s.
Proof.
  unfold final_name, emitted_key, group_count.
  destruct (1 <? _)%nat; [|reflexivity].
  now rewrite append_assoc.
Qed.

(** Every stage is written under its key. *)
Lemma writes_has (ss : list RecipeStage) (p : nat) (s : RecipeStage) :
  nth_error ss p = Some s ->
  In (emitted_key ss p s, VDict (serialized_stage s)) (writes (grouped ss)).
Proof.
  intros Hp. unfold writes. apply in_flat_map.
  exists (s_group s, filter (same_group (s_group s)) ss). split.
  - apply grouped_has. now apply nth_error_In in Hp.
  - cbn [fst snd]. apply in_map_iff.
    exists (length (filter (same_group (s_group s)) (firstn p ss)), s). split.
    + cbn [fst snd]. now rewrite final_name_emitted.
    + apply nth_error_enumerate. apply filter_nth; [assumption|].
      apply String.eqb_refl.
Qed.

(** Every key written is the key of a stage. *)
Lemma writes_key (ss : list RecipeStage) (k : string) :
  In k (keys (writes (grouped ss))) ->
  exists p s, nth_error ss p = Some s /\ k = emitted_key ss p s.
Proof.
  unfold keys, writes. intros H. apply in_map_iff in H as ([k' v] & Ek & H).
  simpl in Ek; subst k'. apply in_flat_map in H as ([g l] & Hg & H).
  cbn [fst snd] in H. apply in_map_iff in H as ([i s] & E & H).
  cbn [fst snd] in E. injection E as <- _.
  apply grouped_in in Hg as [-> _].
  apply nth_error_enumerate in H.
  apply filter_nth_inv in H as (p & Hp & Hs & <-).
  unfold same_group in Hs. apply String.eqb_eq in Hs as <-.
  exists p, s. split; [assumption|]. now rewrite final_name_emitted.
Qed.

(** ** The keys written are pairwise distinct *)

Lemma NoDup_flat_map {A B : Type} (f : A -> list B) (l : list A) :
  NoDup l -> (forall a, In a l -> NoDup (f a)) ->
  (forall a a' b, In a l -> In a' l -> In b (f a) -> In b (f a') -> a = a') ->
  NoDup (flat_map f l).
Proof.
  induction l as [|a l IH]; intros Hnd Hin Hdis; simpl; [constructor|].
  inversion Hnd as [|? ? Hni Hnd']; subst.
  apply NoDup_app.
  - apply Hin. now left.
  - apply IH; auto.
    + intros a' Ha'. apply Hin. now right.
    + intros a1 a2 b H1 H2. apply Hdis; now right.
  - intros b Hb Hb'. apply in_flat_map in Hb' as (a' & Ha' & Hb').
    assert (a = a') by (apply (Hdis a a' b); auto; [now left | now right]).
    subst. contradiction.
Qed.

Lemma keys_flat_map {A V : Type} (f : A -> list (string * V)) (l : list A) :
  keys (flat_map f l) = flat_map (fun a => keys (f a)) l.
Proof.
  unfold keys. induction l as [|a l IH]; simpl; [reflexivity|].
  now rewrite map_app, IH.
Qed.

Lemma keys_writes (groups : list (string * list RecipeStage)) :
  keys (writes groups) =
  flat_map (fun e => map (final_name (fst e ++ "_stage") (length (snd e)))
                       (seq 0 (length (snd e))))
    groups.
Proof.
  unfold writes. rewrite keys_flat_map. apply flat_map_ext. intros [g l].
  cbn [fst snd].
  apply (keys_enumerate (final_name (g ++ "_stage") (length l))
           (fun s => VDict (serialized_stage s))).
Qed.

Lemma final_names_nodup (g : string) (len : nat) :
  NoDup (map (final_name (g ++ "_stage") len) (seq 0 len)).
Proof.
  apply NoDup_map_NoDup_ForallPairs; [|apply seq_NoDup].
  intros i j Hi Hj E. apply final_name_inj in E as [_ E].
  destruct (1 <? len)%nat eqn:El; [auto|].
  apply Nat.ltb_ge in El. apply in_seq in Hi, Hj. lia.
Qed.

Lemma writes_wf (ss : list RecipeStage) : wf_dict (writes (grouped ss)).
Proof.
  unfold wf_dict. rewrite keys_writes.
  destruct (grouped_spec ss) as [Hwf _].
  apply NoDup_flat_map.
  - apply (NoDup_map_inv fst). exact Hwf.
  - intros [g l] _. apply final_names_nodup.
  - intros [g l] [g' l'] k Hin Hin' Hk Hk'. cbn [fst snd] in *.
    apply in_map_iff in Hk as (i & <- & _).
    apply in_map_iff in Hk' as (j & E & _).
    apply final_name_inj in E as [-> _].
    apply (dict_get_in _ _ _ Hwf) in Hin, Hin'. congruence.
Qed.

Lemma writes_key_last (ss : list RecipeStage) (k : string) :
  In k (keys (writes (grouped ss))) ->
  exists c, last_char k = Some c /\ (c = "e"%char \/ is_digit c = true).
Proof.
  rewrite keys_writes. intros H. apply in_flat_map in H as ([g l] & _ & H).
  apply in_map_iff in H as (i & <- & _). apply final_name_last.
Qed.

Lemma attributes_keys (r : Recipe) (k : string) :
  In k (keys (attributes r)) -> k = "version" \/ k = "args".
Proof.
  rewrite attributes_eq. unfold keys. rewrite map_app, in_app_iff.
  intros [H | H].
  - destruct (version r) as [v|]; [|contradiction].
    destruct (String.eqb v ""); [contradiction|].
    destruct H as [<- | []]. now left.
  - destruct (args r); [contradiction|]. destruct H as [<- | []]. now right.
Qed.

Lemma attributes_wf (r : Recipe) : wf_dict (attributes r).
Proof.
  rewrite attributes_eq. unfold wf_dict, keys.
  destruct (version r) as [v|]; [destruct (String.eqb v "")|];
    destruct (args r); simpl; repeat constructor; simpl; intuition discriminate.
Qed.

Lemma writes_not_attribute (r : Recipe) (ss : list RecipeStage) (k : string) :
  In k (keys (writes (grouped ss))) -> ~ In k (keys (attributes r)).
Proof.
  intros Hw Ha. apply writes_key_last in Hw as (c & Hc & Hd).
  apply attributes_keys in Ha as [-> | ->]; simpl in Hc; injection Hc as <-;
    destruct Hd; discriminate.
Qed.

(** The emitted mapping, entry by entry. *)
Lemma get_yaml_dict_entries (r : Recipe) :
  _get_yaml_dict r = Ok (attributes r ++ writes (grouped (stages r))).
Proof.
  rewrite get_yaml_dict_eq. f_equal. apply dict_update_fresh.
  - apply writes_wf.
  - intros k. apply writes_not_attribute.
Qed.

Lemma get_yaml_dict_wf (r : Recipe) :
  wf_dict (attributes r ++ writes (grouped (stages r))).
Proof.
  unfold wf_dict, keys. rewrite map_app. apply NoDup_app.
  - apply attributes_wf.
  - apply writes_wf.
  - intros k Ha Hw. now apply (writes_not_attribute r) in Hw.
Qed.

(** ** Keys of the emitted stages *)

Lemma yaml_dict_stage_keys_gen (r : Recipe) :
  exists yaml_dict,
    _get_yaml_dict r = Ok yaml_dict /\
    (forall p s, nth_error (stages r) p = Some s ->
       dict_get (emitted_key (stages r) p s) yaml_dict =
       Some (VDict (serialized_stage s))) /\
    (forall k, In k (keys yaml_dict) ->
       k = "version" \/ k = "args" \/
       exists p s, nth_error (stages r) p = Some s /\
                   k = emitted_key (stages r) p s).
Proof.
  eexists. split; [apply get_yaml_dict_entries|]. split.
  - intros p s Hp. apply dict_get_in; [apply get_yaml_dict_wf|].
    apply in_app_iff. right. now apply writes_has.
  - intros k Hk. unfold keys in Hk. rewrite map_app, in_app_iff in Hk.
    destruct Hk as [Hk | Hk].
    + apply attributes_keys in Hk. tauto.
    + right. right. now apply writes_key.
Qed.

Lemma group_count_app (l l' : list RecipeStage) (g : string) :
  group_count (l ++ l') g = group_count l g + group_count l' g.
Proof. unfold group_count. now rewrite filter_app, length_app. Qed.

Lemma group_count_before (l : list RecipeStage) (p : nat) (s : RecipeStage) :
  nth_error l p = Some s -> group_count l (s_group s) = 1 ->
  group_count (firstn p l) (s_group s) = 0.
Proof.
  intros Hp Hc. apply nth_error_split in Hp as (l1 & l2 & -> & <-).
  rewrite firstn_app, Nat.sub_diag, firstn_all, firstn_O, app_nil_r.
  rewrite group_count_app in Hc. unfold group_count in *. cbn [filter] in Hc.
  unfold same_group at 2 in Hc. rewrite String.eqb_refl in Hc.
  simpl in Hc. lia.
Qed.

(** C8: each stage is emitted under the key "<group>_stage"; when several
    stages have the same group, every one of them, the first included, is
    emitted under "<group>_stage_<idx>", idx being its 0-based position among
    the stages of that group, and a group with one stage keeps the plain key;
    no other stage key is emitted.  In particular, when two recipes that
    each have one stage named "s1" are combined, the serialization holds
    these stages under "s1_stage_0" and "s1_stage_1". *)
Theorem yaml_dict_stage_keys :
  (forall r : Recipe,
     exists yaml_dict,
       _get_yaml_dict r = Ok yaml_dict /\
       (forall p s, nth_error (stages r) p = Some s ->
          dict_get (emitted_key (stages r) p s) yaml_dict =
          Some (VDict (serialized_stage s))) /\
       (forall k, In k (keys yaml_dict) ->
          k = "version" \/ k = "args" \/
          exists p s, nth_error (stages r) p = Some s /\
                      k = emitted_key (stages r) p s)) /\
  (forall (env : Env) (r1 r2 : Recipe) (p1 p2 : nat) (a b : RecipeStage),
     nth_error (stages r1) p1 = Some a -> s_group a = "s1" ->
     group_count (stages r1) "s1" = 1 ->
     nth_error (stages r2) p2 = Some b -> s_group b = "s1" ->
     group_count (stages r2) "s1" = 1 ->
     exists combined yaml_dict,
       simplify_combine_recipes env [InRecipe r1; InRecipe r2] = Ok combined /\
       _get_yaml_dict combined = Ok yaml_dict /\
       dict_get "s1_stage_0" yaml_dict = Some (VDict (serialized_stage a)) /\
       dict_get "s1_stage_1" yaml_dict = Some (VDict (serialized_stage b))).
Proof.
  split; [exact yaml_dict_stage_keys_gen|].
  intros env r1 r2 p1 p2 a b Ha Ga Ca Hb Gb Cb.
  set (combined := mkRecipe (version r2) (dict_update (dict_update [] (args r1)) (args r2))
                     (stages r1 ++ stages r2)).
  destruct (yaml_dict_stage_keys_gen combined) as (yd & Hyd & Hget & _).
  exists combined, yd. split; [|split; [exact Hyd|]].
  - unfold simplify_combine_recipes. rewrite Recipe_new_eq.
    subst combined. destruct r1, r2. reflexivity.
  - assert (Hcount : group_count (stages combined) "s1" = 2)
      by (cbn [stages combined]; rewrite group_count_app; lia).
    split.
    + specialize (Hget p1 a). cbn [stages combined] in Hget.
      rewrite nth_error_app1 in Hget by (apply nth_error_Some; congruence).
      specialize (Hget Ha). unfold emitted_key in Hget.
      cbn [stages combined] in Hcount. rewrite Ga, Hcount in Hget.
      rewrite firstn_app in Hget.
      replace (p1 - length (stages r1)) with 0 in Hget
        by (assert (p1 < length (stages r1))
              by (apply nth_error_Some; congruence); lia).
      rewrite firstn_O, app_nil_r in Hget.
      rewrite <- Ga in Hget at 2.
      rewrite (group_count_before _ _ _ Ha) in Hget by (now rewrite Ga).
      exact Hget.
    + specialize (Hget (length (stages r1) + p2) b).
      cbn [stages combined] in Hget.
      rewrite nth_error_app2 in Hget by lia.
      replace (length (stages r1) + p2 - length (stages r1)) with p2 in Hget
        by lia.
      specialize (Hget Hb). unfold emitted_key in Hget.
      cbn [stages combined] in Hcount. rewrite Gb, Hcount in Hget.
      rewrite firstn_app in Hget.
      replace (length (stages r1) + p2 - length (stages r1)) with p2 in Hget
        by lia.
      rewrite firstn_all2 in Hget by lia.
      rewrite group_count_app, Ca in Hget.
      rewrite <- Gb in Hget at 2.
      rewrite (group_count_before _ _ _ Hb) in Hget by (now rewrite Gb).
      exact Hget.
Qed.

Lemma yaml_dict_stage_keys_witness :
  exists combined yaml_dict,
    simplify_combine_recipes example_env
      [InRecipe (mkRecipe None [] [mkRecipeStage "s1" None []]);
       InRecipe (mkRecipe None []
                   [mkRecipeStage "s0" None [];
                    mkRecipeStage "s1" (Some "train") []])] = Ok combined /\
    _get_yaml_dict combined = Ok yaml_dict /\
    dict_get "s1_stage_0" yaml_dict =
      Some (VDict (serialized_stage (mkRecipeStage "s1" None []))) /\
    dict_get "s1_stage_1" yaml_dict =
      Some (VDict (serialized_stage (mkRecipeStage "s1" (Some "train") []))).
Proof.
  apply (proj2 yaml_dict_stage_keys example_env
           (mkRecipe None [] [mkRecipeStage "s1" None []])
           (mkRecipe None []
              [mkRecipeStage "s0" None [];
               mkRecipeStage "s1" (Some "train") []])
           0 1); reflexivity.
Defined.

(** ** Reading an emitted stage body back *)

Lemma modifiers_suffix_not_bare (g : string) :
  String.eqb (g ++ "_modifiers") "modifiers" = false.
Proof.
  apply String.eqb_neq. intros H. apply (f_equal String.length) in H.
  rewrite length_append in H. simpl in H. lia.
Qed.

Lemma modifiers_suffix_key (g : string) :
  is_modifiers_key (g ++ "_modifiers") = true.
Proof. unfold is_modifiers_key. rewrite endswith_append. apply orb_true_r. Qed.

Lemma modifiers_suffix_group (g : string) :
  modifiers_key_group (g ++ "_modifiers") = g.
Proof.
  unfold modifiers_key_group. rewrite modifiers_suffix_not_bare.
  apply rsplit1_head_append. discriminate.
Qed.

Lemma stage_dict_value_keys (by_group : list (string * list (string * dict)))
  (k : string) :
  In k (keys (stage_dict_value by_group)) ->
  exists g, k = (g ++ "_modifiers")%string.
Proof.
  unfold keys, stage_dict_value. rewrite map_map. cbn [fst].
  intros H. apply in_map_iff in H as (e & <- & _). eauto.
Qed.

Lemma stage_dict_value_fresh (by_group : list (string * list (string * dict)))
  (k : string) :
  is_modifiers_key k = false -> ~ In k (keys (stage_dict_value by_group)).
Proof.
  intros Hk Hin. apply stage_dict_value_keys in Hin as [g ->].
  rewrite modifiers_suffix_key in Hk. discriminate.
Qed.

Lemma stage_dict_value_no_bare (by_group : list (string * list (string * dict))) :
  ~ In "modifiers" (keys (stage_dict_value by_group)).
Proof.
  intros Hin. apply stage_dict_value_keys in Hin as [g E].
  symmetry in E. apply String.eqb_eq in E.
  rewrite modifiers_suffix_not_bare in E. discriminate.
Qed.

Lemma serialized_stage_eq (s : RecipeStage) :
  serialized_stage s =
  stage_dict_value (regrouped (s_modifiers s)) ++ run_type_entry s.
Proof.
  unfold serialized_stage, run_type_entry.
  destruct (s_run_type s) as [rt|]; [|now rewrite app_nil_r].
  destruct (String.eqb rt ""); [now rewrite app_nil_r|].
  apply dict_set_fresh. now apply stage_dict_value_fresh.
Qed.

Lemma tagged_stage_eq (s : RecipeStage) (g : string) :
  dict_set "group" (VStr g) (serialized_stage s) =
  stage_dict_value (regrouped (s_modifiers s)) ++
  run_type_entry s ++ [("group", VStr g)].
Proof.
  rewrite serialized_stage_eq, app_assoc. apply dict_set_fresh.
  unfold keys. rewrite map_app, in_app_iff. intros [H | H].
  - revert H. now apply stage_dict_value_fresh.
  - unfold run_type_entry in H. destruct (s_run_type s) as [rt|]; [|contradiction].
    destruct (String.eqb rt ""); [contradiction|].
    destruct H as [H | []]. discriminate.
Qed.

Lemma dict_get_fresh_app {V : Type} (d d' : list (string * V)) (k : string) :
  ~ In k (keys d) -> dict_get k (d ++ d') = dict_get k d'.
Proof.
  intros H. rewrite dict_get_app.
  now replace (dict_get k d) with (@None V) by (symmetry; now apply dict_get_none).
Qed.

Lemma RecipeModifier_validate_dump (l : list RecipeModifier) :
  mapM RecipeModifier_validate (map modifier_dump l) = Ok l.
Proof.
  induction l as [|m l IH]; [reflexivity|].
  cbn [map mapM]. replace (RecipeModifier_validate (modifier_dump m)) with (Ok m)
    by (destruct m; reflexivity).
  cbn [bind]. rewrite IH. reflexivity.
Qed.

Lemma shorthand_descriptors_emitted
  (by_group : list (string * list (string * dict))) :
  concat (map shorthand_descriptors (stage_dict_value by_group)) =
  map modifier_dump
    (flat_map (fun e => map (fun ta => mkRecipeModifier (fst ta) (fst e) (snd ta))
                          (snd e)) by_group).
Proof.
  induction by_group as [|[mg inner] R IH]; [reflexivity|].
  cbn [stage_dict_value map concat flat_map fst snd].
  fold (stage_dict_value R). rewrite map_app, <- IH. f_equal.
  unfold shorthand_descriptors. cbn [fst snd]. rewrite modifiers_suffix_key.
  unfold inner_value. rewrite modifiers_suffix_group, !map_map.
  reflexivity.
Qed.

Lemma shorthand_descriptors_none (tail : dict) :
  forallb no_modifiers_key tail = true ->
  concat (map shorthand_descriptors tail) = [].
Proof.
  induction tail as [|[k v] tail IH]; [reflexivity|].
  cbn [forallb]. intros H. apply andb_true_iff in H as [Hk Ht].
  cbn [map concat]. rewrite (IH Ht), app_nil_r.
  unfold shorthand_descriptors, no_modifiers_key in *. cbn [fst] in *.
  now destruct (is_modifiers_key k).
Qed.

(** The descriptors that the modifier shorthand of an emitted body yields. *)
Lemma extract_emitted_modifiers (ms : list RecipeModifier) (tail : dict) :
  forallb no_modifiers_key tail = true ->
  exists rest,
    extract_dict_modifiers (stage_dict_value (regrouped ms) ++ tail) =
    Ok (map modifier_dump (regroup ms), rest).
Proof.
  intros Htail. unfold extract_dict_modifiers.
  rewrite mapM_ok with (g := shorthand_descriptors).
  - cbn [bind]. rewrite map_app, concat_app.
    rewrite (shorthand_descriptors_none _ Htail), app_nil_r.
    rewrite shorthand_descriptors_emitted. eexists. reflexivity.
  - intros [k v] Hin. unfold shorthand_descriptors. cbn [fst snd].
    destruct (is_modifiers_key k) eqn:Ek; [|reflexivity].
    apply in_app_iff in Hin as [Hin | Hin].
    + unfold stage_dict_value in Hin. apply in_map_iff in Hin as (e & E & _).
      injection E as _ <-. reflexivity.
    + rewrite forallb_forall in Htail. specialize (Htail _ Hin).
      unfold no_modifiers_key in Htail. cbn [fst] in Htail.
      rewrite Ek in Htail. discriminate.
Qed.

Lemma RecipeStage_validate_emitted (s : RecipeStage) :
  run_type_canonical s ->
  RecipeStage_validate
    (VDict (dict_set "group" (VStr (s_group s)) (serialized_stage s))) =
  Ok (mkRecipeStage (s_group s) (s_run_type s) (regroup (s_modifiers s))).
Proof.
  intros Hrt. rewrite tagged_stage_eq. unfold RecipeStage_validate.
  assert (Hfresh : forall k, is_modifiers_key k = false ->
            dict_get k (stage_dict_value (regrouped (s_modifiers s)) ++
                        run_type_entry s ++ [("group", VStr (s_group s))]) =
            dict_get k (run_type_entry s ++ [("group", VStr (s_group s))])).
  { intros k Hk. apply dict_get_fresh_app. now apply stage_dict_value_fresh. }
  rewrite (Hfresh "group" eq_refl), (Hfresh "run_type" eq_refl).
  rewrite (dict_get_fresh_app _ _ "modifiers" (stage_dict_value_no_bare _)).
  assert (Htail : forallb no_modifiers_key
                    (run_type_entry s ++ [("group", VStr (s_group s))]) = true).
  { unfold run_type_entry. destruct (s_run_type s) as [rt|]; [|reflexivity].
    destruct (String.eqb rt ""); reflexivity. }
  destruct (extract_emitted_modifiers (s_modifiers s) _ Htail) as [rest Hex].
  unfold run_type_canonical in Hrt. unfold run_type_entry in *.
  destruct (s_run_type s) as [rt|].
  - destruct (String.eqb_spec rt "") as [->|Hne]; [contradiction|].
    cbn [app dict_get String.eqb Ascii.eqb Bool.eqb].
    cbn [app] in Hex. rewrite Hex. cbn [bind].
    rewrite RecipeModifier_validate_dump. reflexivity.
  - cbn [app dict_get String.eqb Ascii.eqb Bool.eqb].
    cbn [app] in Hex. rewrite Hex. cbn [bind].
    rewrite RecipeModifier_validate_dump. cbn [bind]. now rewrite Hrt.
Qed.

(** ** Regrouping keeps the modifiers *)

Lemma dict_set_split {V : Type} (d : list (string * V)) (k : string) (x : V) :
  dict_get k d = Some x ->
  exists d1 d2, d = d1 ++ (k, x) :: d2 /\
                forall v, dict_set k v d = d1 ++ (k, v) :: d2.
Proof.
  induction d as [|[k' v'] d IH]; simpl; [discriminate|].
  destruct (String.eqb_spec k k') as [->|Hne].
  - intros [= ->]. exists [], d. split; [reflexivity|]. intros v. reflexivity.
  - intros H. destruct (IH H) as (d1 & d2 & -> & Hset).
    exists ((k', v') :: d1), d2. split; [reflexivity|].
    intros v. simpl. now rewrite Hset.
Qed.

Lemma flat_modifiers_app (a b : list (string * list (string * dict))) :
  flat_modifiers (a ++ b) = flat_modifiers a ++ flat_modifiers b.
Proof. unfold flat_modifiers. apply flat_map_app. Qed.

Lemma regroup_eq (ms : list RecipeModifier) :
  regroup ms = flat_modifiers (regrouped ms).
Proof. reflexivity. Qed.

Lemma modifier_add_perm (m : RecipeModifier)
  (by_group : list (string * list (string * dict))) :
  (forall inner, dict_get (m_group m) by_group = Some inner ->
                 ~ In (m_type m) (keys inner)) ->
  Permutation (flat_modifiers (modifier_add m by_group))
    (flat_modifiers by_group ++ [m]).
Proof.
  intros Hfresh. unfold modifier_add.
  assert (Em : mkRecipeModifier (m_type m) (m_group m) (m_args m) = m)
    by now destruct m.
  destruct (dict_get (m_group m) by_group) as [inner|] eqn:E.
  - rewrite (dict_set_fresh _ _ _ (Hfresh inner eq_refl)).
    destruct (dict_set_split _ _ _ E) as (d1 & d2 & -> & Hset).
    rewrite Hset, !flat_modifiers_app.
    unfold flat_modifiers at 2 4. cbn [flat_map fst snd].
    rewrite map_app. cbn [map fst snd]. rewrite Em.
    fold (flat_modifiers d2).
    set (X := map (fun ta => mkRecipeModifier (fst ta) (m_group m) (snd ta)) inner).
    rewrite <- !app_assoc. cbn [app].
    apply Permutation_app_head. apply Permutation_app_head.
    apply Permutation_cons_append.
  - rewrite flat_modifiers_app. unfold flat_modifiers at 2.
    cbn [flat_map map fst snd app]. now rewrite Em.
Qed.

Lemma flat_modifiers_bound (by_group : list (string * list (string * dict)))
  (g t : string) (inner : list (string * dict)) :
  dict_get g by_group = Some inner -> In t (keys inner) ->
  In (g, t) (map modifier_key (flat_modifiers by_group)).
Proof.
  intros Hg Ht. apply dict_get_some_in in Hg.
  unfold keys in Ht. apply in_map_iff in Ht as ([t' a] & Et & Ha).
  simpl in Et; subst t'. apply in_map_iff.
  exists (mkRecipeModifier t g a). split; [reflexivity|].
  unfold flat_modifiers. apply in_flat_map. exists (g, inner). split; [assumption|].
  cbn [fst snd]. apply in_map_iff. exists (t, a). auto.
Qed.

Lemma regrouped_perm (rest : list RecipeModifier) :
  forall (done : list RecipeModifier)
         (by_group : list (string * list (string * dict))),
    Permutation (flat_modifiers by_group) done ->
    NoDup (map modifier_key (done ++ rest)) ->
    Permutation
      (flat_modifiers (fold_left (fun by_group m => modifier_add m by_group)
                         rest by_group))
      (done ++ rest).
Proof.
  induction rest as [|m rest IH]; intros done R Hperm Hnd.
  - now rewrite app_nil_r.
  - cbn [fold_left].
    replace (done ++ m :: rest) with ((done ++ [m]) ++ rest) in *
      by (now rewrite <- app_assoc).
    apply IH; [|assumption].
    rewrite modifier_add_perm.
    + now apply Permutation_app_tail.
    + intros inner Hg Ht.
      pose proof (flat_modifiers_bound _ _ _ _ Hg Ht) as Hin.
      apply (Permutation_in _ (Permutation_map modifier_key Hperm)) in Hin.
      rewrite map_app in Hnd. apply NoDup_app_remove_r in Hnd.
      rewrite map_app in Hnd. cbn [map] in Hnd.
      apply NoDup_remove_2 in Hnd. apply Hnd.
      rewrite app_nil_r. exact Hin.
Qed.

(** Under the uniqueness of (group, type) the modifiers read back are those
    emitted, listed group by group. *)
Lemma regroup_perm (ms : list RecipeModifier) :
  NoDup (map modifier_key ms) -> Permutation (regroup ms) ms.
Proof.
  intros H. rewrite regroup_eq. unfold regrouped.
  exact (regrouped_perm ms [] [] (Permutation_refl _) H).
Qed.

(** With a single modifier group the order is kept as well. *)
Lemma regrouped_single (g : string) (rest : list RecipeModifier) :
  forall done : list RecipeModifier,
    Forall (fun m => m_group m = g) rest ->
    NoDup (map m_type (done ++ rest)) ->
    fold_left (fun by_group m => modifier_add m by_group) rest
      (match done with
       | [] => []
       | _ => [(g, map (fun m => (m_type m, m_args m)) done)]
       end) =
    match done ++ rest with
    | [] => []
    | _ => [(g, map (fun m => (m_type m, m_args m)) (done ++ rest))]
    end.
Proof.
  induction rest as [|m rest IH]; intros done Hg Hnd.
  - now rewrite app_nil_r.
  - inversion Hg as [|? ? Hm Hrest]; subst. cbn [fold_left].
    replace (done ++ m :: rest) with ((done ++ [m]) ++ rest) in *
      by (now rewrite <- app_assoc).
    rewrite <- (IH (done ++ [m]) Hrest Hnd). f_equal.
    unfold modifier_add. destruct done as [|x done].
    + reflexivity.
    + cbn [dict_get app]. rewrite String.eqb_refl. cbn [dict_set].
      rewrite String.eqb_refl. f_equal. f_equal.
      change (x :: done ++ [m]) with ((x :: done) ++ [m]).
      rewrite dict_set_fresh; [now rewrite map_app|].
      rewrite map_app in Hnd. apply NoDup_app_remove_r in Hnd.
      rewrite map_app in Hnd. cbn [map] in Hnd.
      apply NoDup_remove_2 in Hnd. rewrite app_nil_r in Hnd.
      unfold keys. now rewrite map_map.
Qed.

Lemma regroup_single (g : string) (ms : list RecipeModifier) :
  Forall (fun m => m_group m = g) ms -> NoDup (map modifier_key ms) ->
  regroup ms = ms.
Proof.
  intros Hg Hnd.
  assert (Ht : NoDup (map m_type ms)).
  { apply (NoDup_map_inv (fun t => (g, t))). rewrite map_map.
    erewrite map_ext_in; [exact Hnd|].
    intros m Hm. rewrite Forall_forall in Hg.
    unfold modifier_key. now rewrite (Hg m Hm). }
  rewrite regroup_eq. unfold regrouped.
  rewrite (regrouped_single g ms [] Hg Ht). cbn [app].
  destruct ms as [|m ms]; [reflexivity|].
  unfold flat_modifiers. cbn [flat_map fst snd]. rewrite app_nil_r, map_map.
  cbn [fst snd]. rewrite <- (map_id (m :: ms)) at 2.
  apply map_ext_in. intros x Hx. rewrite Forall_forall in Hg.
  rewrite <- (Hg x Hx). now destruct x.
Qed.

(** ** Round trip *)

Lemma grouped_distinct (ss : list RecipeStage) :
  NoDup (map s_group ss) ->
  grouped ss = map (fun s => (s_group s, [s])) ss.
Proof.
  induction ss as [|s ss IH] using rev_ind; intros Hnd; [reflexivity|].
  rewrite map_app in Hnd. cbn [map] in Hnd.
  pose proof (NoDup_remove_2 _ _ _ Hnd) as Hni. rewrite app_nil_r in Hni.
  apply NoDup_app_remove_r in Hnd.
  rewrite grouped_snoc, (IH Hnd), map_app. unfold group_add.
  replace (dict_get (s_group s) (map (fun s0 => (s_group s0, [s0])) ss))
    with (@None (list RecipeStage)); [reflexivity|].
  symmetry. apply dict_get_none. unfold keys. now rewrite map_map.
Qed.

Lemma writes_distinct (ss : list RecipeStage) :
  writes (map (fun s => (s_group s, [s])) ss) = stage_entries ss.
Proof.
  induction ss as [|s ss IH]; [reflexivity|].
  cbn [map writes flat_map]. fold (writes (map (fun s => (s_group s, [s])) ss)).
  now rewrite IH.
Qed.

Lemma get_yaml_dict_distinct (r : Recipe) :
  NoDup (map s_group (stages r)) ->
  _get_yaml_dict r = Ok (attributes r ++ stage_entries (stages r)).
Proof.
  intros H. now rewrite get_yaml_dict_entries, grouped_distinct, writes_distinct.
Qed.

Lemma attribute_key_plain (r : Recipe) (kv : string * value) :
  In kv (attributes r) ->
  is_modifiers_key (fst kv) = false /\ is_stage_key (fst kv) = false /\
  String.eqb (fst kv) "stages" = false.
Proof.
  intros H. apply (in_map fst) in H. apply attributes_keys in H as [-> | ->];
    repeat split.
Qed.

Lemma stage_entry_key (ss : list RecipeStage) (kv : string * value) :
  In kv (stage_entries ss) ->
  is_modifiers_key (fst kv) = false /\ is_stage_key (fst kv) = true /\
  String.eqb (fst kv) "stages" = false /\ is_dict (snd kv) = true.
Proof.
  unfold stage_entries. intros H. apply in_map_iff in H as (s & <- & _).
  cbn [fst snd is_dict].
  assert (Hs : is_stage_key (s_group s ++ "_stage") = true)
    by apply endswith_append.
  auto using stage_key_not_modifiers, stage_key_not_stages.
Qed.

Lemma filter_all {A : Type} (f : A -> bool) (l : list A) :
  (forall x, In x l -> f x = true) -> filter f l = l.
Proof. intros H. apply forallb_filter_id. now apply forallb_forall. Qed.

Lemma filter_none {A : Type} (f : A -> bool) (l : list A) :
  (forall x, In x l -> f x = false) -> filter f l = [].
Proof.
  induction l as [|a l IH]; intros H; simpl; [reflexivity|].
  rewrite (H a) by now left. apply IH. intros x Hx. apply H. now right.
Qed.

Section Emitted.
Variable r : Recipe.
Hypothesis distinct_groups : NoDup (map s_group (stages r)).

Lemma emitted_wf : wf_dict (emitted_dict r).
Proof.
  unfold emitted_dict.
  rewrite <- writes_distinct, <- grouped_distinct by assumption.
  apply get_yaml_dict_wf.
Qed.

Lemma emitted_no_modifiers_key : forallb no_modifiers_key (emitted_dict r) = true.
Proof.
  apply forallb_forall. intros kv Hin. unfold no_modifiers_key, emitted_dict in *.
  apply in_app_iff in Hin as [Hin | Hin].
  - apply attribute_key_plain in Hin as (-> & _). reflexivity.
  - apply stage_entry_key in Hin as (-> & _). reflexivity.
Qed.

Lemma emitted_no_stages_key : dict_get "stages" (emitted_dict r) = None.
Proof.
  apply dict_get_none. intros Hin. unfold keys in Hin.
  apply in_map_iff in Hin as (kv & E & Hin). unfold emitted_dict in Hin.
  apply in_app_iff in Hin as [Hin | Hin].
  - apply attribute_key_plain in Hin as (_ & _ & H). rewrite E in H. discriminate.
  - apply stage_entry_key in Hin as (_ & _ & H & _). rewrite E in H. discriminate.
Qed.

Lemma emitted_stage_filter :
  filter (fun kv => is_stage_key (fst kv)) (emitted_dict r) = stage_entries (stages r).
Proof.
  unfold emitted_dict.
  rewrite filter_app, filter_none, filter_all; [reflexivity | |].
  - intros kv Hin. now apply stage_entry_key in Hin as (_ & -> & _).
  - intros kv Hin. now apply attribute_key_plain in Hin as (_ & -> & _).
Qed.

Lemma emitted_suffix_ok : suffix_ok (emitted_dict r) = true.
Proof.
  apply forallb_forall. intros kv Hin. unfold emitted_dict in Hin.
  apply in_app_iff in Hin as [Hin | Hin].
  - apply attribute_key_plain in Hin as (_ & -> & _). reflexivity.
  - apply stage_entry_key in Hin as (_ & _ & _ & ->). apply orb_true_r.
Qed.

Lemma emitted_remaining : remaining (emitted_dict r) = attributes r.
Proof.
  unfold remaining, emitted_dict at 2. rewrite filter_app, filter_all, filter_none.
  - apply app_nil_r.
  - intros kv Hin. unfold consumed.
    apply stage_entry_key in Hin as (_ & -> & _). now rewrite orb_true_r.
  - intros kv Hin. unfold consumed.
    now apply attribute_key_plain in Hin as (-> & -> & ->).
Qed.

Lemma emitted_suffix_part :
  suffix_part (emitted_dict r) =
  map (fun s => VDict (dict_set "group" (VStr (s_group s)) (serialized_stage s)))
    (stages r).
Proof.
  unfold suffix_part. rewrite emitted_stage_filter. unfold stage_entries.
  rewrite map_map. apply map_ext. intros s. cbn [fst snd tag_group].
  rewrite rsplit1_head_append by discriminate. reflexivity.
Qed.

Lemma emitted_normal_form :
  remap_stages (emitted_dict r) =
  Ok [("stages",
       VList (map (fun s => VDict (dict_set "group" (VStr (s_group s))
                                     (serialized_stage s))) (stages r)));
      ("args", VDict (attributes r))].
Proof.
  rewrite remap_stages_eq by apply emitted_wf.
  assert (Hm : modifiers_ok (emitted_dict r) = true).
  { apply forallb_forall. intros kv Hin.
    pose proof emitted_no_modifiers_key as H. rewrite forallb_forall in H.
    specialize (H _ Hin). unfold no_modifiers_key in H. now rewrite H. }
  rewrite Hm, emitted_suffix_ok. unfold explicit_ok, default_part, explicit_part.
  rewrite emitted_no_stages_key.
  rewrite (extract_dict_modifiers_none _ emitted_no_modifiers_key).
  now rewrite emitted_remaining, emitted_suffix_part.
Qed.
End Emitted.

Lemma mapM_map_ok {A B C : Type} (f : B -> result C) (h : A -> B) (g : A -> C)
  (l : list A) :
  Forall (fun x => f (h x) = Ok (g x)) l -> mapM f (map h l) = Ok (map g l).
Proof.
  induction 1 as [|x l Hx _ IH]; [reflexivity|].
  cbn [map mapM]. rewrite Hx. cbn [bind]. now rewrite IH.
Qed.

(** What parsing the serialization yields, for stages of distinct groups. *)
Lemma parse_serialized_distinct (r : Recipe) :
  NoDup (map s_group (stages r)) ->
  Forall run_type_canonical (stages r) ->
  parse_serialized r =
  Ok (mkRecipe None (attributes r) (map reparsed_stage (stages r))).
Proof.
  intros Hnd Hrt. unfold parse_serialized.
  rewrite (get_yaml_dict_distinct r Hnd). cbn [bind]. unfold model_validate.
  fold (emitted_dict r).
  rewrite (emitted_normal_form r Hnd). cbn [bind]. rewrite Recipe_fields_normal.
  rewrite mapM_map_ok with (g := reparsed_stage); [reflexivity|].
  eapply Forall_impl; [|exact Hrt].
  intros s Hs. now apply RecipeStage_validate_emitted.
Qed.

(** C1, the claim as stated fails: two stages of one group, as combination
    produces them, are emitted under "s1_stage_0" and "s1_stage_1"; these keys
    do not end in "_stage", so parsing reads them as args and the Recipe read
    back has no stage. *)
Lemma parse_serialized_duplicate_groups :
  Forall (fun s => NoDup (map modifier_key (s_modifiers s)))
    (stages duplicate_group_recipe) /\
  exists r', parse_serialized duplicate_group_recipe = Ok r' /\
             stages r' = [] /\
             map s_group (stages r') <>
             map s_group (stages duplicate_group_recipe) /\
             keys (args r') = ["s1_stage_0"; "s1_stage_1"].
Proof.
  split.
  - repeat constructor; simpl; tauto.
  - eexists. split; [reflexivity|]. repeat split. discriminate.
Qed.

(** C1 (amended): for every Recipe whose stages have pairwise distinct group
    names, whose run types are ones that parsing produces, and in which no
    stage holds two descriptors with the same (group, type) pair, parsing
    the serialization yields a Recipe with the same stages in the same
    order: same group names, same run types, and in each stage the same
    descriptors (type, group and args), listed group by group, hence in the
    order of R when the stage has a single modifier group. *)
Theorem parse_serialized_roundtrip (r : Recipe) :
  NoDup (map s_group (stages r)) ->
  Forall run_type_canonical (stages r) ->
  Forall (fun s => NoDup (map modifier_key (s_modifiers s))) (stages r) ->
  exists r',
    parse_serialized r = Ok r' /\
    map s_group (stages r') = map s_group (stages r) /\
    map s_run_type (stages r') = map s_run_type (stages r) /\
    Forall2 (fun s' s =>
               s_modifiers s' = regroup (s_modifiers s) /\
               Permutation (s_modifiers s') (s_modifiers s) /\
               (forall g, Forall (fun m => m_group m = g) (s_modifiers s) ->
                          s_modifiers s' = s_modifiers s))
      (stages r') (stages r).
Proof.
  intros Hnd Hrt Hkeys. eexists.
  split; [now apply parse_serialized_distinct|]. cbn [stages].
  rewrite !map_map. repeat split.
  clear Hnd Hrt. induction Hkeys as [|s ss Hs _ IH]; constructor; [|exact IH].
  cbn [reparsed_stage s_modifiers]. split; [reflexivity|]. split.
  - now apply regroup_perm.
  - intros g Hg. now apply (regroup_single g).
Qed.

Lemma parse_serialized_roundtrip_witness :
  exists r',
    parse_serialized example_roundtrip_recipe = Ok r' /\
    map s_group (stages r') = ["s1"; "oneshot"] /\
    map s_run_type (stages r') = [None; Some "oneshot"] /\
    Forall2 (fun s' s =>
               s_modifiers s' = regroup (s_modifiers s) /\
               Permutation (s_modifiers s') (s_modifiers s) /\
               (forall g, Forall (fun m => m_group m = g) (s_modifiers s) ->
                          s_modifiers s' = s_modifiers s))
      (stages r') (stages example_roundtrip_recipe).
Proof.
  apply (parse_serialized_roundtrip example_roundtrip_recipe).
  - repeat constructor; simpl; intuition discriminate.
  - repeat constructor. simpl. discriminate.
  - repeat constructor; simpl; intuition discriminate.
Defined.

(** * Further properties of the code *)

(** ** Front matter: the block returned *)





(** ** Ingestion of modifier objects and of files *)

Lemma mapM_as_modifier (l : list elem) :
  mapM as_modifier l =
  if forallb is_modifier l then Ok (modifiers_of l) else Err ValueError.
Proof.
  induction l as [|e l IH]; [reflexivity|].
  cbn [mapM forallb modifiers_of flat_map]. fold (modifiers_of l).
  destruct e; cbn [as_modifier is_modifier bind andb]; try reflexivity.
  rewrite IH. now destruct (forallb is_modifier l).
Qed.

(** X2: [from_modifiers] raises ValueError exactly when some element of the
    list is not a Modifier; otherwise it returns a Recipe with no version, no
    args and exactly one stage (also for the empty list), named by the given
    group name, or "default" when the name is None or empty, holding one
    descriptor per modifier, in order, with the class name as type, the stage
    name as group and the set fields as args. *)
Theorem from_modifiers_single_stage (modifiers : list elem)
  (modifier_group_name : option string) :
  from_modifiers modifiers modifier_group_name =
  if forallb is_modifier modifiers then
    let g := group_name_or_default modifier_group_name in
    Ok (mkRecipe None []
          [mkRecipeStage g (infer_run_type g)
             (map (fun m => mkRecipeModifier (class_name m) g (model_dump_set m))
                (modifiers_of modifiers))])
  else Err ValueError.
Proof.
  unfold from_modifiers. rewrite mapM_as_modifier.
  destruct (forallb is_modifier modifiers); reflexivity.
Qed.




(** ** Serialization: what is emitted *)

Lemma by_group_get_add (m : RecipeModifier)
  (by_group : list (string * list (string * dict))) (g t : string) :
  by_group_get (modifier_add m by_group) g t =
  if String.eqb (m_group m) g && String.eqb (m_type m) t
  then Some (m_args m) else by_group_get by_group g t.
Proof.
  unfold by_group_get, modifier_add.
  destruct (dict_get (m_group m) by_group) as [inner|] eqn:E.
  - rewrite dict_get_set, (String.eqb_sym g).
    destruct (String.eqb_spec (m_group m) g) as [<-|Hne]; cbn [andb].
    + rewrite dict_get_set, (String.eqb_sym t), E.
      now destruct (String.eqb (m_type m) t).
    + reflexivity.
  - rewrite dict_get_app. cbn [dict_get]. rewrite (String.eqb_sym g).
    destruct (String.eqb_spec (m_group m) g) as [<-|Hne]; cbn [andb].
    + rewrite E. cbn [dict_get]. rewrite (String.eqb_sym t).
      now destruct (String.eqb (m_type m) t).
    + now destruct (dict_get g by_group).
Qed.

Lemma by_group_get_regrouped (ms : list RecipeModifier) (g t : string) :
  by_group_get (regrouped ms) g t = last_args ms g t.
Proof.
  unfold regrouped, last_args.
  change (@None dict) with (by_group_get [] g t).
  generalize (@nil (string * list (string * dict))) as R.
  induction ms as [|m ms IH]; intros R; [reflexivity|].
  cbn [fold_left]. rewrite IH. f_equal. apply by_group_get_add.
Qed.

Lemma emitted_args_value (by_group : list (string * list (string * dict)))
  (g t : string) :
  emitted_args (stage_dict_value by_group) g t =
  option_map VDict (by_group_get by_group g t).
Proof.
  unfold emitted_args, by_group_get. rewrite stage_dict_value_eq.
  rewrite (dict_get_map (fun k => (k ++ "_modifiers")%string) inner_value
             (suffix_inj "_modifiers")).
  destruct (dict_get g by_group) as [inner|]; [|reflexivity].
  cbn [option_map inner_value].
  exact (dict_get_map (fun k => k) VDict (fun a b H => H) inner t).
Qed.

(** X4: [get_yaml_serializable_stage_dict] never fails on dumped descriptors,
    and when several descriptors of a stage have the same group and type the
    last one silently replaces the earlier ones: under a group and a type
    the result holds the args of the last descriptor with that pair, and
    nothing for a pair that no descriptor has. *)
Theorem serializable_stage_dict_last_wins (ms : list RecipeModifier) :
  exists stage_dict,
    get_yaml_serializable_stage_dict (map modifier_dump ms) = Ok stage_dict /\
    forall g t, emitted_args stage_dict g t =
                option_map VDict (last_args ms g t).
Proof.
  eexists. split; [apply get_yaml_serializable_stage_dict_eq|].
  intros g t. now rewrite emitted_args_value, by_group_get_regrouped.
Qed.

Lemma writes_no_attribute (r : Recipe) (k : string) :
  k = "version" \/ k = "args" ->
  dict_get k (writes (grouped (stages r))) = None.
Proof.
  intros Hk. apply dict_get_none. intros Hin.
  apply writes_key_last in Hin as (c & Hc & Hd).
  destruct Hk as [-> | ->]; simpl in Hc; injection Hc as <-;
    destruct Hd; discriminate.
Qed.

(** X5: serialization never fails, and the recipe-level attributes are
    emitted only when truthy: the key "version" is present exactly when the
    version is a non-empty string, the key "args" exactly when the args are
    not empty, each holding the attribute itself. *)
Theorem get_yaml_dict_attributes (r : Recipe) :
  exists yaml_dict,
    _get_yaml_dict r = Ok yaml_dict /\
    dict_get "version" yaml_dict =
      match version r with
      | Some v => if String.eqb v "" then None else Some (VStr v)
      | None => None
      end /\
    dict_get "args" yaml_dict =
      match args r with
      | [] => None
      | _ => Some (VDict (args r))
      end.
Proof.
  eexists. split; [apply get_yaml_dict_entries|].
  rewrite !dict_get_app, !writes_no_attribute by auto.
  rewrite attributes_eq.
  destruct (version r) as [v|]; [destruct (String.eqb v "")|];
    destruct (args r); split; reflexivity.
Qed.

(** X6: [Recipe.dict] never fails and regroups the dumped stages by name:
    under "<group>_stage" it holds the stages of that group, in their order
    in the Recipe and without their "group" entry, and it has no entry for a
    name that no stage has; every name ends in "_stage". *)
Theorem Recipe_dict_groups (r : Recipe) :
  exists d,
    Recipe_dict r = Ok d /\
    d_version d = opt_str (version r) /\
    d_args d = VDict (args r) /\
    wf_dict (d_stages d) /\
    (forall g, dict_get (g ++ "_stage") (d_stages d) =
               match filter (same_group g) (stages r) with
               | [] => None
               | l => Some (map body_dump l)
               end) /\
    (forall name, In name (keys (d_stages d)) ->
                  exists g, name = (g ++ "_stage")%string).
Proof.
  eexists. split; [apply Recipe_dict_eq|]. cbn [d_version d_args d_stages].
  destruct (grouped_spec (stages r)) as [Hwf Hget].
  repeat split.
  - unfold wf_dict, to_stages.
    rewrite (keys_map (fun k => (k ++ "_stage")%string) (map body_dump)).
    apply NoDup_map_NoDup_ForallPairs; [|exact Hwf].
    intros a b _ _ H. now apply append_inj_l in H.
  - intros g. unfold to_stages.
    rewrite (dict_get_map (fun k => (k ++ "_stage")%string) (map body_dump)
               (suffix_inj "_stage")), Hget.
    now destruct (filter (same_group g) (stages r)).
  - intros name Hin. unfold to_stages in Hin.
    rewrite (keys_map (fun k => (k ++ "_stage")%string) (map body_dump)) in Hin.
    apply in_map_iff in Hin as (g & <- & _). eauto.
Qed.

(** X7: when the stages of a Recipe have pairwise distinct groups, the
    emitted mapping lists the attributes first and then one entry per stage
    in the order of the Recipe, each under "<group>_stage". *)
Theorem get_yaml_dict_stage_order (r : Recipe) :
  NoDup (map s_group (stages r)) ->
  exists yaml_dict,
    _get_yaml_dict r = Ok yaml_dict /\
    keys yaml_dict =
      keys (attributes r) ++
      map (fun s => (s_group s ++ "_stage")%string) (stages r) /\
    forall s, In s (stages r) ->
      dict_get (s_group s ++ "_stage") yaml_dict =
      Some (VDict (serialized_stage s)).
Proof.
  intros Hnd. eexists. split; [now apply get_yaml_dict_distinct|]. split.
  - unfold keys, stage_entries. now rewrite map_app, map_map.
  - intros s Hs. apply dict_get_in.
    + apply (emitted_wf r Hnd).
    + apply in_app_iff. right. unfold stage_entries.
      apply in_map_iff. eauto.
Qed.

Lemma get_yaml_dict_stage_order_witness :
  exists yaml_dict,
    _get_yaml_dict example_roundtrip_recipe = Ok yaml_dict /\
    keys yaml_dict = ["version"; "args"; "s1_stage"; "oneshot_stage"] /\
    forall s, In s (stages example_roundtrip_recipe) ->
      dict_get (s_group s ++ "_stage") yaml_dict =
      Some (VDict (serialized_stage s)).
Proof.
  apply (get_yaml_dict_stage_order example_roundtrip_recipe).
  repeat constructor; simpl; intuition discriminate.
Defined.

(** ** Dictionary updates compose *)

Section UpdateFacts.
Context {V : Type}.
Implicit Types (x y z : list (string * V)) (k : string) (v : V).

Lemma keys_dict_set x k v :
  forall k', In k' (keys (dict_set k v x)) <-> k' = k \/ In k' (keys x).
Proof.
  intros k'. induction x as [|[a b] x IH]; simpl; [intuition|].
  destruct (String.eqb_spec k a) as [->|Hne]; simpl; [intuition|].
  rewrite IH. intuition.
Qed.

Lemma wf_dict_update x y : wf_dict x -> wf_dict (dict_update x y).
Proof.
  unfold dict_update. revert x; induction y as [|[k v] y IH]; intros x H;
    [assumption|].
  simpl. apply IH. now apply wf_dict_set.
Qed.

Lemma dict_set_same x k v : dict_get k x = Some v -> dict_set k v x = x.
Proof.
  induction x as [|[a b] x IH]; simpl; [discriminate|].
  destruct (String.eqb_spec k a) as [->|Hne].
  - now intros [= ->].
  - intros H. now rewrite IH.
Qed.

Lemma dict_set_set x k v v' : dict_set k v (dict_set k v' x) = dict_set k v x.
Proof.
  induction x as [|[a b] x IH]; simpl.
  - now rewrite String.eqb_refl.
  - destruct (String.eqb_spec k a) as [->|Hne]; simpl.
    + now rewrite String.eqb_refl.
    + apply String.eqb_neq in Hne. rewrite Hne. now rewrite IH.
Qed.

Lemma dict_set_comm x k v k' v' :
  In k (keys x) -> k <> k' ->
  dict_set k v (dict_set k' v' x) = dict_set k' v' (dict_set k v x).
Proof.
  intros Hin Hne. induction x as [|[a b] x IH]; [contradiction|].
  simpl. destruct (String.eqb_spec k' a) as [->|Hk'];
    destruct (String.eqb_spec k a) as [->|Hk]; simpl.
  - contradiction.
  - rewrite String.eqb_refl. apply String.eqb_neq in Hk. now rewrite Hk.
  - rewrite String.eqb_refl. apply String.eqb_neq in Hk'. now rewrite Hk'.
  - apply String.eqb_neq in Hk, Hk'. rewrite Hk, Hk'. f_equal. apply IH.
    destruct Hin as [E | Hin]; [|assumption].
    simpl in E. apply String.eqb_neq in Hk. congruence.
Qed.

Lemma dict_set_update x y k v :
  In k (keys x) -> ~ In k (keys y) ->
  dict_set k v (dict_update x y) = dict_update (dict_set k v x) y.
Proof.
  unfold dict_update. revert x; induction y as [|[a b] y IH]; intros x Hx Hy;
    [reflexivity|].
  simpl in *. rewrite IH.
  - f_equal. apply dict_set_comm; [assumption | intuition].
  - apply keys_dict_set. now right.
  - intuition.
Qed.

Lemma dict_update_set x y k v :
  wf_dict y ->
  dict_update x (dict_set k v y) = dict_set k v (dict_update x y).
Proof.
  intros Hwf. destruct (in_dec string_dec k (keys y)) as [Hin | Hni].
  - revert x. induction y as [|[a b] y IH]; intros x; [contradiction|].
    inversion Hwf as [|? ? Hna Hwf']; subst.
    simpl. destruct (String.eqb_spec k a) as [->|Hne].
    + change (dict_update x ((a, v) :: y))
        with (dict_update (dict_set a v x) y).
      change (dict_update x ((a, b) :: y))
        with (dict_update (dict_set a b x) y).
      rewrite dict_set_update.
      * now rewrite dict_set_set.
      * apply keys_dict_set. now left.
      * exact Hna.
    + change (dict_update x ((a, b) :: dict_set k v y))
        with (dict_update (dict_set a b x) (dict_set k v y)).
      change (dict_update x ((a, b) :: y))
        with (dict_update (dict_set a b x) y).
      apply IH; [assumption|].
      destruct Hin as [E | Hin]; [simpl in E; congruence | assumption].
  - rewrite (dict_set_fresh _ _ _ Hni). unfold dict_update.
    now rewrite fold_left_app.
Qed.

(** [x.update(y); x.update(z)] is [x.update(y')] with [y' = y; y'.update(z)]. *)
Lemma dict_update_assoc x y z :
  wf_dict y ->
  dict_update x (dict_update y z) = dict_update (dict_update x y) z.
Proof.
  revert y; induction z as [|[k v] z IH]; intros y Hwf; [reflexivity|].
  change (dict_update y ((k, v) :: z)) with (dict_update (dict_set k v y) z).
  rewrite IH by now apply wf_dict_set.
  rewrite dict_update_set by assumption. reflexivity.
Qed.

Lemma dict_update_absorb x y :
  (forall k v, In (k, v) y -> dict_get k x = Some v) -> dict_update x y = x.
Proof.
  unfold dict_update. induction y as [|[k v] y IH]; intros H; [reflexivity|].
  simpl. rewrite dict_set_same by (apply H; now left).
  apply IH. intros k' v' Hin. apply H. now right.
Qed.

(** Updating twice with the same dictionary changes nothing more. *)
Lemma dict_update_idem x y :
  wf_dict y -> dict_update (dict_update x y) y = dict_update x y.
Proof.
  intros Hwf. apply dict_update_absorb. intros k v Hin.
  rewrite dict_get_update, dict_get_rev_wf by assumption.
  now rewrite (dict_get_in _ _ _ Hwf Hin).
Qed.
End UpdateFacts.

(** ** Simplification and combination compose *)

Lemma kept_stages_idem (t : option RecipeStageInput) (r : Recipe) (v : option string)
  (a : dict) :
  kept_stages t (mkRecipe v a (kept_stages t r)) = kept_stages t r.
Proof.
  unfold kept_stages. destruct t as [t|]; [|reflexivity].
  destruct (target_truthy (Some t)); [|reflexivity].
  cbn [stages]. rewrite filter_twice. apply filter_ext.
  intros s. apply andb_diag.
Qed.

(** X8: [simplify_recipe] is idempotent on a Recipe: with the same target
    stages and the same overrides, simplifying the result again returns the
    same Recipe; the version is never changed and every stage of the result
    is a stage of the input. *)
Theorem simplify_recipe_idempotent (env : Env) (r r1 : Recipe)
  (t : option RecipeStageInput) (o : option dict) :
  wf_dict (args r) ->
  match o with Some d => wf_dict d | None => True end ->
  simplify_recipe env (Some (InRecipe r)) t (option_map ADict o) =
    Ok (InRecipe r1) ->
  simplify_recipe env (Some (InRecipe r1)) t (option_map ADict o) =
    Ok (InRecipe r1) /\
  version r1 = version r /\
  incl (stages r1) (stages r).
Proof.
  intros Hwf Ho H.
  rewrite (simplify_recipe_resolved env (InRecipe r) r t o) in H
    by (try discriminate; auto).
  injection H as <-. cbn [version stages]. repeat split.
  - set (r1 := mkRecipe (version r) (merged_args o r) (kept_stages t r)).
    assert (Hwf1 : wf_dict (args r1)).
    { cbn [args r1]. unfold merged_args. destruct o; [|assumption].
      now apply wf_dict_update. }
    rewrite (simplify_recipe_resolved env (InRecipe r1) r1 t o
               ltac:(discriminate) eq_refl Hwf1).
    subst r1. cbn [version]. rewrite kept_stages_idem.
    f_equal. f_equal. f_equal.
    destruct o as [d|]; [|reflexivity].
    cbn [merged_args args]. now apply dict_update_idem.
  - unfold kept_stages. destruct t as [t|]; [|apply incl_refl].
    destruct (target_truthy (Some t)); [|apply incl_refl].
    intros s Hs. now apply filter_In in Hs.
Qed.

Lemma simplify_recipe_idempotent_witness :
  simplify_recipe example_env
    (Some (InRecipe
             (mkRecipe (Some "1.0") [("k", VInt 5); ("lr", VInt 3)]
                [mkRecipeStage "s1" None [mkRecipeModifier "M1" "g" []];
                 mkRecipeStage "s1" None [mkRecipeModifier "M2" "g" []]])))
    (Some (TList ["s1"])) (Some (ADict [("k", VInt 5)])) =
  Ok (InRecipe
        (mkRecipe (Some "1.0") [("k", VInt 5); ("lr", VInt 3)]
           [mkRecipeStage "s1" None [mkRecipeModifier "M1" "g" []];
            mkRecipeStage "s1" None [mkRecipeModifier "M2" "g" []]])).
Proof.
  refine (proj1 (simplify_recipe_idempotent example_env example_recipe _
                   (Some (TList ["s1"])) (Some [("k", VInt 5)]) _ _ eq_refl)).
  - solve_wf.
  - solve_wf.
Defined.

Lemma combine_recipes_eq (env : Env) (rs : list Recipe) :
  simplify_combine_recipes env (map InRecipe rs) =
  Ok (mkRecipe (last (map version rs) None) (combined_args rs)
        (concat (map stages rs))).
Proof.
  unfold simplify_combine_recipes. rewrite Recipe_new_eq. cbn [bind].
  rewrite (combine_loop env (map InRecipe rs) rs); [reflexivity | |].
  - apply Forall_forall. intros i Hi. apply in_map_iff in Hi as (r & <- & _).
    reflexivity.
  - induction rs; constructor; auto.
Qed.

Lemma combined_args_wf (rs : list Recipe) : wf_dict (combined_args rs).
Proof.
  unfold combined_args.
  assert (H : forall acc : dict, wf_dict acc ->
            wf_dict (fold_left (fun acc r => dict_update acc (args r)) rs acc)).
  { induction rs as [|r rs IH]; intros acc Hacc; [assumption|].
    simpl. apply IH. now apply wf_dict_update. }
  apply H. constructor.
Qed.

Lemma fold_update_shift (rs : list Recipe) :
  forall x y : dict, wf_dict y ->
    dict_update x (fold_left (fun acc r => dict_update acc (args r)) rs y) =
    fold_left (fun acc r => dict_update acc (args r)) rs (dict_update x y).
Proof.
  induction rs as [|r rs IH]; intros x y Hy; [reflexivity|].
  cbn [fold_left]. rewrite IH by now apply wf_dict_update.
  now rewrite dict_update_assoc.
Qed.

Lemma last_app_nonempty {A : Type} (l1 l2 : list A) (d : A) :
  l2 <> [] -> last (l1 ++ l2) d = last l2 d.
Proof.
  intros H. induction l1 as [|a l1 IH]; [reflexivity|].
  simpl. destruct (l1 ++ l2) eqn:E; [|exact IH].
  apply app_eq_nil in E as [_ E]. contradiction.
Qed.

(** X9: combination is associative on stages and args: combining the
    combination of a first list of recipes with the combination of a second
    list gives the stages and the args of the combination of the two lists
    at once.  The version is that of the last recipe when the second list is
    not empty; when it is empty the version is None, whatever the first list
    holds. *)
Theorem simplify_combine_recipes_assoc (env : Env) (rs1 rs2 : list Recipe) :
  exists c1 c2 c12 c,
    simplify_combine_recipes env (map InRecipe rs1) = Ok c1 /\
    simplify_combine_recipes env (map InRecipe rs2) = Ok c2 /\
    simplify_combine_recipes env (map InRecipe (rs1 ++ rs2)) = Ok c12 /\
    simplify_combine_recipes env [InRecipe c1; InRecipe c2] = Ok c /\
    stages c = stages c12 /\
    args c = args c12 /\
    (rs2 <> [] -> version c = version c12) /\
    (rs2 = [] -> version c = None).
Proof.
  do 4 eexists.
  split; [apply combine_recipes_eq|].
  split; [apply combine_recipes_eq|].
  split; [apply combine_recipes_eq|].
  split; [apply (combine_recipes_eq env [_; _])|].
  cbn [stages args version map concat last]. repeat split.
  - now rewrite app_nil_r, map_app, concat_app.
  - unfold combined_args at 1. cbn [fold_left args].
    change (dict_update [] (combined_args rs1))
      with (dict_copy (combined_args rs1)).
    rewrite dict_copy_wf by apply combined_args_wf.
    unfold combined_args. rewrite fold_left_app.
    rewrite fold_update_shift by constructor.
    reflexivity.
  - intros Hne. rewrite map_app. symmetry. apply last_app_nonempty.
    destruct rs2; [contradiction | discriminate].
  - intros ->. reflexivity.
Qed.

Lemma simplify_combine_recipes_assoc_witness :
  exists c1 c2 c12 c,
    simplify_combine_recipes example_env (map InRecipe [example_recipe]) = Ok c1 /\
    simplify_combine_recipes example_env
      (map InRecipe [example_roundtrip_recipe]) = Ok c2 /\
    simplify_combine_recipes example_env
      (map InRecipe ([example_recipe] ++ [example_roundtrip_recipe])) = Ok c12 /\
    simplify_combine_recipes example_env [InRecipe c1; InRecipe c2] = Ok c /\
    stages c = stages c12 /\
    args c = args c12 /\
    version c = version c12.
Proof.
  destruct (simplify_combine_recipes_assoc example_env [example_recipe]
              [example_roundtrip_recipe])
    as (c1 & c2 & c12 & c & H1 & H2 & H3 & H4 & Hs & Ha & Hv & _).
  exists c1, c2, c12, c. repeat split; auto. apply Hv. discriminate.
Defined.

(** ** Materialization *)

Section MaterializeFacts.
Context {M : Type}.
Variable f : RecipeStage -> result (StageModifiers M).

Lemma create_modifier_loop (ss : list RecipeStage) :
  forall (k : nat) (acc l : list (StageModifiers M)),
    foldM (create_modifier_step f) (combine (seq k (length ss)) ss) acc = Ok l ->
    exists l', l = acc ++ l' /\ length l' = length ss /\
      forall i s, nth_error ss i = Some s ->
        exists sm, f s = Ok sm /\
          nth_error l' i =
          Some (mkStageModifiers (sm_modifiers sm) (Some (k + i))
                  (Some (s_group s))).
Proof.
  induction ss as [|s ss IH]; intros k acc l.
  - simpl. intros [= <-]. exists []. rewrite app_nil_r. repeat split.
    intros i s H. destruct i; discriminate.
  - cbn [length seq combine foldM]. unfold create_modifier_step at 1.
    cbn [fst snd]. destruct (f s) as [sm|e] eqn:Ef; [|discriminate].
    cbn [bind sm_modifiers sm_index]. intros H.
    apply IH in H as (l' & -> & Hlen & Hnth).
    eexists (_ :: l'). rewrite <- app_assoc. split; [reflexivity|].
    split; [simpl; now rewrite Hlen|].
    intros i s' Hi. destruct i as [|i]; simpl in Hi.
    + injection Hi as <-. exists sm. rewrite Nat.add_0_r. auto.
    + destruct (Hnth i s' Hi) as (sm' & Hf & Hn). exists sm'.
      split; [assumption|]. simpl. rewrite Hn. do 3 f_equal. lia.
Qed.

Lemma create_modifier_loop_total (ss : list RecipeStage) :
  Forall (fun s => exists sm, f s = Ok sm) ss ->
  forall (k : nat) (acc : list (StageModifiers M)),
    exists l, foldM (create_modifier_step f)
                (combine (seq k (length ss)) ss) acc = Ok l.
Proof.
  induction 1 as [|s ss [sm Hs] _ IH]; intros k acc; [simpl; eauto|].
  cbn [length seq combine foldM]. unfold create_modifier_step at 1.
  cbn [fst snd]. rewrite Hs. cbn [bind]. apply IH.
Qed.

Lemma create_modifier_loop_error (ss : list RecipeStage) :
  forall (k : nat) (acc : list (StageModifiers M)) (e : error),
    foldM (create_modifier_step f) (combine (seq k (length ss)) ss) acc = Err e ->
    exists s, In s ss /\ f s = Err e.
Proof.
  induction ss as [|s ss IH]; intros k acc e; [discriminate|].
  cbn [length seq combine foldM]. unfold create_modifier_step at 1.
  cbn [fst snd]. destruct (f s) as [sm|e'] eqn:Ef; cbn [bind].
  - intros H. apply IH in H as (s' & Hin & Hs'). exists s'. split; [now right | auto].
  - intros [= <-]. exists s. split; [now left | auto].
Qed.
End MaterializeFacts.

(** X10: [create_modifier] returns one stage object per stage of the Recipe,
    in order: the object at position i holds what the stage at position i
    creates, with index i and the group of that stage.  It succeeds when
    every stage can be created, and an error it raises is the error of
    creating one of the stages. *)
Theorem create_modifier_indexed (M : Type)
  (stage_create_modifier : RecipeStage -> result (StageModifiers M))
  (self : Recipe) :
  (forall l, create_modifier stage_create_modifier self = Ok l ->
     length l = length (stages self) /\
     forall i stage, nth_error (stages self) i = Some stage ->
       exists sm, stage_create_modifier stage = Ok sm /\
         nth_error l i =
         Some (mkStageModifiers (sm_modifiers sm) (Some i)
                 (Some (s_group stage)))) /\
  (Forall (fun stage => exists sm, stage_create_modifier stage = Ok sm)
     (stages self) ->
   exists l, create_modifier stage_create_modifier self = Ok l) /\
  (forall e, create_modifier stage_create_modifier self = Err e ->
     exists stage, In stage (stages self) /\
                   stage_create_modifier stage = Err e).
Proof.
  unfold create_modifier, enumerate. split; [|split].
  - intros l H. apply create_modifier_loop in H as (l' & -> & Hlen & Hnth).
    split; [exact Hlen|]. exact Hnth.
  - intros H. now apply create_modifier_loop_total.
  - intros e H. now apply create_modifier_loop_error in H.
Qed.

Lemma create_modifier_indexed_witness :
  exists sm, example_registry (mkRecipeStage "s2" None []) = Ok sm /\
    nth_error
      [mkStageModifiers ["M1"] (Some 0) (Some "s1");
       mkStageModifiers [] (Some 1) (Some "s2");
       mkStageModifiers ["M2"] (Some 2) (Some "s1")] 1 =
    Some (mkStageModifiers (sm_modifiers sm) (Some 1) (Some "s2")).
Proof.
  exact (proj2 (proj1 (create_modifier_indexed string example_registry
                         example_recipe) _ eq_refl) 1 _ eq_refl).
Defined.

(** ** Stage names and a round trip from live modifiers *)



Lemma RecipeStage_new_canonical (g : string) (ms : list RecipeModifier) :
  run_type_canonical (RecipeStage_new g ms).
Proof.
  unfold run_type_canonical, RecipeStage_new, infer_run_type.
  cbn [s_run_type s_group].
  destruct (String.eqb_spec g "oneshot") as [->|]; [discriminate|].
  destruct (String.eqb_spec g "train") as [->|]; [discriminate|].
  reflexivity.
Qed.

(** X12: a Recipe built by [from_modifiers] from live modifiers of pairwise
    distinct classes survives serialization: parsing what [_get_yaml_dict]
    emits for it gives back the same single stage, with the same descriptors
    in the same order, and no version and no args. *)
Theorem from_modifiers_roundtrip (modifiers : list elem)
  (modifier_group_name : option string) :
  forallb is_modifier modifiers = true ->
  NoDup (map class_name (modifiers_of modifiers)) ->
  exists r,
    from_modifiers modifiers modifier_group_name = Ok r /\
    parse_serialized r = Ok r.
Proof.
  intros Hmod Hnd. unfold from_modifiers. rewrite mapM_as_modifier, Hmod.
  cbn [bind]. rewrite Recipe_new_eq. cbn [bind version args].
  fold (group_name_or_default modifier_group_name).
  set (g := group_name_or_default modifier_group_name).
  set (ms := map (fun m => mkRecipeModifier (class_name m) g (model_dump_set m))
               (modifiers_of modifiers)).
  eexists. split; [reflexivity|].
  rewrite parse_serialized_distinct.
  - cbn [stages map]. unfold reparsed_stage, RecipeStage_new.
    cbn [s_group s_run_type s_modifiers].
    rewrite (regroup_single g ms); [reflexivity | |].
    + subst ms. apply Forall_forall. intros m Hm.
      apply in_map_iff in Hm as (x & <- & _). reflexivity.
    + subst ms. rewrite map_map. unfold modifier_key. cbn [m_group m_type].
      rewrite <- (map_map class_name (fun t => (g, t))).
      apply NoDup_map_NoDup_ForallPairs; [|exact Hnd].
      intros a b _ _ H. now injection H.
  - cbn [stages map]. repeat constructor. intros [].
  - cbn [stages]. repeat constructor. apply RecipeStage_new_canonical.
Qed.

Lemma from_modifiers_roundtrip_witness :
  exists r,
    from_modifiers
      [EModifier (mkModifier "SparseGPTModifier" [("sparsity", VInt 1)]);
       EModifier (mkModifier "GPTQModifier" [])] (Some "oneshot") = Ok r /\
    parse_serialized r = Ok r.
Proof.
  apply (from_modifiers_roundtrip
           [EModifier (mkModifier "SparseGPTModifier" [("sparsity", VInt 1)]);
            EModifier (mkModifier "GPTQModifier" [])] (Some "oneshot")).
  - reflexivity.
  - repeat constructor; simpl; intuition discriminate.
Defined.

(** ** The min-max observer *)

Lemma reduce_dims_along_in (n : nat) (dim idx : Z) :
  In idx (reduce_dims_along n dim) <->
  (0 <= idx < Z.of_nat n)%Z /\ idx <> dim.
Proof.
  unfold reduce_dims_along. rewrite filter_In, in_map_iff, negb_true_iff,
    Z.eqb_neq. split.
  - intros [(i & <- & Hi) Hne]. apply in_seq in Hi. split; [lia | assumption].
  - intros [Hr Hne]. split; [|assumption].
    exists (Z.to_nat idx). split; [lia|]. apply in_seq. lia.
Qed.

Lemma reduce_dims_along_out (n : nat) (dim : Z) :
  (dim < 0 \/ Z.of_nat n <= dim)%Z ->
  reduce_dims_along n dim = map Z.of_nat (seq 0 n).
Proof.
  intros H. unfold reduce_dims_along. apply filter_all.
  intros idx Hin. apply in_map_iff in Hin as (i & <- & Hi).
  apply in_seq in Hi. apply negb_true_iff, Z.eqb_neq. lia.
Qed.

Lemma filter_remove_one (k n : nat) (d : nat) :
  d < n ->
  length (filter (fun idx => negb (Z.eqb idx (Z.of_nat (k + d))))
            (map Z.of_nat (seq k n))) = n - 1.
Proof.
  revert k d; induction n as [|n IH]; intros k d Hd; [lia|].
  cbn [seq map filter]. destruct d as [|d].
  - rewrite Nat.add_0_r, Z.eqb_refl. cbn [negb].
    rewrite filter_all.
    + rewrite length_map, length_seq. lia.
    + intros idx Hin. apply in_map_iff in Hin as (i & <- & Hi).
      apply in_seq in Hi. apply negb_true_iff, Z.eqb_neq. lia.
  - replace (Z.of_nat k =? Z.of_nat (k + S d))%Z with false
      by (symmetry; apply Z.eqb_neq; lia).
    cbn [negb length]. replace (k + S d) with (S k + d) by lia.
    rewrite IH by lia. lia.
Qed.

(** X13: the dimensions that [get_qparams_along_dim] reduces over are the
    dimensions of the tensor other than [dim], in increasing order: all but
    one when [dim] is a dimension of the tensor; a negative [dim], or one
    beyond the last dimension, excludes nothing and every dimension is
    reduced.  For a tensor of one dimension and [dim = 0] nothing is left to
    reduce over, and the call is [calculate_qparams] without [reduce_dims]. *)
Theorem get_qparams_along_dim_reduce_dims (Tensor QParams : Type)
  (ops : TensorOps Tensor QParams) (self : MinMaxObserver Tensor)
  (observed : Tensor) (dim : Z) (tensor_id : option string)
  (global_scale : option Tensor) :
  get_qparams_along_dim ops self observed dim tensor_id global_scale =
    calculate_qparams ops self observed
      (Some (reduce_dims_along (ndim ops observed) dim)) tensor_id global_scale /\
  (forall idx, In idx (reduce_dims_along (ndim ops observed) dim) <->
               (0 <= idx < Z.of_nat (ndim ops observed))%Z /\ idx <> dim) /\
  ((0 <= dim < Z.of_nat (ndim ops observed))%Z ->
   length (reduce_dims_along (ndim ops observed) dim) = ndim ops observed - 1) /\
  ((dim < 0 \/ Z.of_nat (ndim ops observed) <= dim)%Z ->
   reduce_dims_along (ndim ops observed) dim =
   map Z.of_nat (seq 0 (ndim ops observed))) /\
  (ndim ops observed = 1 ->
   get_qparams_along_dim ops self observed 0 tensor_id global_scale =
   calculate_qparams ops self observed None tensor_id global_scale).
Proof.
  split; [reflexivity|]. split; [apply reduce_dims_along_in|]. split; [|split].
  - intros H. unfold reduce_dims_along.
    replace dim with (Z.of_nat (0 + Z.to_nat dim)) by lia.
    apply filter_remove_one. lia.
  - apply reduce_dims_along_out.
  - intros H. unfold get_qparams_along_dim. rewrite H. reflexivity.
Qed.

Lemma get_qparams_along_dim_reduce_dims_witness :
  get_qparams_along_dim example_ops (mkMinMaxObserver 1%float [] [])
    [3; 1; 2]%Z 0 None None =
  calculate_qparams example_ops (mkMinMaxObserver 1%float [] [])
    [3; 1; 2]%Z None None None.
Proof.
  exact (proj2 (proj2 (proj2 (proj2
           (get_qparams_along_dim_reduce_dims (list Z) (list Z * list Z)
              example_ops (mkMinMaxObserver 1%float [] []) [3; 1; 2]%Z 0
              None None)))) eq_refl).
Defined.

(** X14: what a call of [calculate_qparams] does to the running values.
    With an averaging constant equal to 1.0 the observer is left untouched.
    Otherwise only the entry of the tensor id of the call changes ("default"
    when the id is None or empty): a first observation of that id stores the
    observed minimum and maximum as they are, a later one stores the moving
    average of the running and the observed values; the value returned is
    computed from the values stored. *)
Theorem calculate_qparams_state (Tensor QParams : Type)
  (ops : TensorOps Tensor QParams) (self : MinMaxObserver Tensor)
  (observed : Tensor) (reduce_dims : option (list Z))
  (tensor_id : option string) (global_scale : option Tensor) :
  let id := tensor_id_or_default tensor_id in
  let c := averaging_constant self in
  let lo := fst (observed_min_max ops observed reduce_dims) in
  let hi := snd (observed_min_max ops observed reduce_dims) in
  let self' := fst (calculate_qparams ops self observed reduce_dims tensor_id
                      global_scale) in
  let q := snd (calculate_qparams ops self observed reduce_dims tensor_id
                  global_scale) in
  averaging_constant self' = c /\
  (PrimFloat.eqb c 1%float = true ->
   self' = self /\ q = qparams_of ops lo hi global_scale) /\
  (PrimFloat.eqb c 1%float = false ->
   (forall id', id' <> id ->
      dict_get id' (min_val self') = dict_get id' (min_val self) /\
      dict_get id' (max_val self') = dict_get id' (max_val self)) /\
   (dict_get id (min_val self) = None \/ dict_get id (max_val self) = None ->
    dict_get id (min_val self') = Some lo /\
    dict_get id (max_val self') = Some hi /\
    q = qparams_of ops lo hi global_scale) /\
   (forall rmin rmax,
      dict_get id (min_val self) = Some rmin ->
      dict_get id (max_val self) = Some rmax ->
      dict_get id (min_val self') = Some (moving_average ops c rmin lo) /\
      dict_get id (max_val self') = Some (moving_average ops c rmax hi) /\
      q = qparams_of ops (moving_average ops c rmin lo)
            (moving_average ops c rmax hi) global_scale)).
Proof.
  cbv zeta. unfold calculate_qparams.
  destruct (observed_min_max ops observed reduce_dims) as [lo hi].
  cbn [fst snd].
  destruct (PrimFloat.eqb (averaging_constant self) 1) eqn:Ec.
  - cbn [fst snd]. repeat split; discriminate.
  - set (id := tensor_id_or_default tensor_id).
    destruct (dict_get id (min_val self)) as [rmin|] eqn:Emin;
      destruct (dict_get id (max_val self)) as [rmax|] eqn:Emax;
      cbn [fst snd averaging_constant min_val max_val];
      (split; [reflexivity|]); (split; [discriminate|]); intros _;
      (split; [intros id' Hne; rewrite !dict_get_set;
               apply String.eqb_neq in Hne; rewrite Hne; auto|]);
      rewrite !dict_get_set, !String.eqb_refl; split;
      try (intros [H | H]; discriminate);
      try (intros ? ? [=] [=]; subst; auto);
      try (intros ? ? H1 H2; discriminate);
      auto.
Qed.

Lemma calculate_qparams_state_witness :
  dict_get "default"
    (min_val (fst (calculate_qparams example_ops
                     (mkMinMaxObserver 0%float [] []) [3; 1; 2]%Z None None
                     None))) = Some [0%Z].
Proof.
  exact (proj1 (proj1 (proj2 (proj2 (proj2
           (calculate_qparams_state (list Z) (list Z * list Z) example_ops
              (mkMinMaxObserver 0%float [] []) [3; 1; 2]%Z None None None))
           eq_refl)) (or_introl eq_refl))).
Defined.

(** X15: two observations of one tensor id, starting from an observer that
    has no running value for it and an averaging constant other than 1.0:
    the first stores the observed minimum and maximum, and the second stores
    the moving average of the two observed minima, and of the two maxima. *)
Theorem calculate_qparams_twice (Tensor QParams : Type)
  (ops : TensorOps Tensor QParams) (self : MinMaxObserver Tensor)
  (observed1 observed2 : Tensor) (dims1 dims2 : option (list Z))
  (tensor_id : option string) (scale1 scale2 : option Tensor) :
  PrimFloat.eqb (averaging_constant self) 1%float = false ->
  dict_get (tensor_id_or_default tensor_id) (min_val self) = None \/
  dict_get (tensor_id_or_default tensor_id) (max_val self) = None ->
  let self1 := fst (calculate_qparams ops self observed1 dims1 tensor_id scale1) in
  let self2 := fst (calculate_qparams ops self1 observed2 dims2 tensor_id scale2) in
  dict_get (tensor_id_or_default tensor_id) (min_val self2) =
    Some (moving_average ops (averaging_constant self)
            (fst (observed_min_max ops observed1 dims1))
            (fst (observed_min_max ops observed2 dims2))) /\
  dict_get (tensor_id_or_default tensor_id) (max_val self2) =
    Some (moving_average ops (averaging_constant self)
            (snd (observed_min_max ops observed1 dims1))
            (snd (observed_min_max ops observed2 dims2))).
Proof.
  intros Hc Hnew. cbv zeta. unfold calculate_qparams.
  destruct (observed_min_max ops observed1 dims1) as [lo1 hi1].
  destruct (observed_min_max ops observed2 dims2) as [lo2 hi2].
  rewrite Hc. cbn [fst snd].
  set (id := tensor_id_or_default tensor_id) in *.
  assert (E : match dict_get id (min_val self), dict_get id (max_val self) with
              | Some rmin, Some rmax =>
                  (moving_average ops (averaging_constant self) rmin lo1,
                   moving_average ops (averaging_constant self) rmax hi1)
              | _, _ => (lo1, hi1)
              end = (lo1, hi1)).
  { destruct Hnew as [-> | H]; [reflexivity|].
    rewrite H. now destruct (dict_get id (min_val self)). }
  rewrite E. cbn [fst snd averaging_constant min_val max_val].
  rewrite Hc, !dict_get_set, !String.eqb_refl.
  cbn [fst snd min_val max_val].
  now rewrite !dict_get_set, !String.eqb_refl.
Qed.

Lemma calculate_qparams_twice_witness :
  dict_get "w"
    (min_val
       (fst (calculate_qparams example_ops
               (fst (calculate_qparams example_ops
                       (mkMinMaxObserver 0%float [] []) [3; 1; 2]%Z None
                       (Some "w") None))
               [5; 4]%Z None (Some "w") None))) = Some [0%Z].
Proof.
  exact (proj1 (calculate_qparams_twice (list Z) (list Z * list Z) example_ops
                  (mkMinMaxObserver 0%float [] []) [3; 1; 2]%Z [5; 4]%Z
                  None None (Some "w") None None eq_refl (or_introl eq_refl))).
Defined.

(** ** Targets and overrides of other shapes *)

Lemma prefix_empty (s : string) : String.prefix "" s = true.
Proof. now destruct s. Qed.

Lemma str_contains_iff (s sub : string) :
  str_contains s sub = true <-> exists a b, s = (a ++ sub ++ b)%string.
Proof.
  induction s as [|c s IH]; cbn [str_contains].
  - rewrite orb_false_r. split.
    + intros H. apply prefix_inv in H as [r E].
      destruct sub; [|discriminate]. now exists "", "".
    + intros (a & b & E). destruct a, sub; try discriminate. reflexivity.
  - rewrite orb_true_iff, IH. split.
    + intros [H | (a & b & ->)].
      * apply prefix_inv in H as [r ->]. now exists "", r.
      * now exists (String c a), b.
    + intros (a & b & E). destruct a as [|x a].
      * left. simpl in E. rewrite E. apply prefix_append.
      * right. injection E as _ ->. eauto.
Qed.

(** X16: targets that are not a list of names.  A target given as one
    non-empty string keeps the stages whose group occurs in it as a
    substring; a target given as a non-empty list of lists of names matches
    no group and removes every stage. *)
Theorem simplify_recipe_target_shapes (env : Env) (r : Recipe) :
  (forall target, target <> "" ->
     simplify_recipe env (Some (InRecipe r)) (Some (TStr target)) None =
     Ok (InRecipe
           (mkRecipe (version r) (args r)
              (filter (fun stage => str_contains target (s_group stage))
                 (stages r)))) /\
     forall g, str_contains target g = true <->
               exists a b, target = (a ++ g ++ b)%string) /\
  (forall targets, targets <> [] ->
     simplify_recipe env (Some (InRecipe r)) (Some (TListList targets)) None =
     Ok (InRecipe (mkRecipe (version r) (args r) []))).
Proof.
  split.
  - intros target Hne. split; [|intros g; apply str_contains_iff].
    unfold simplify_recipe, prepare_recipe, filter_stages. cbn [bind].
    cbn [target_truthy].
    replace (String.eqb target "") with false
      by (symmetry; now apply String.eqb_neq).
    reflexivity.
  - intros targets Hne.
    unfold simplify_recipe, prepare_recipe, filter_stages. cbn [bind].
    destruct targets; [contradiction|]. cbn [target_truthy length Nat.eqb negb].
    cbn [apply_overrides bind py_in]. repeat f_equal.
    apply filter_none. reflexivity.
Qed.

Lemma simplify_recipe_target_shapes_witness :
  simplify_recipe example_env (Some (InRecipe example_recipe))
    (Some (TStr "s10")) None =
  Ok (InRecipe
        (mkRecipe (Some "1.0") [("k", VInt 1); ("lr", VInt 3)]
           [mkRecipeStage "s1" None [mkRecipeModifier "M1" "g" []];
            mkRecipeStage "s1" None [mkRecipeModifier "M2" "g" []]])).
Proof.
  exact (proj1 (proj1 (simplify_recipe_target_shapes example_env example_recipe)
                  "s10" ltac:(discriminate))).
Defined.

(** X17: errors of [simplify_recipe].  On a non-empty list that is not a
    list of Modifiers, a truthy target or truthy overrides raise
    AttributeError (the list has no stages and no args); on a Recipe,
    overrides given as a non-empty list of mappings raise TypeError. *)
Theorem simplify_recipe_errors (env : Env) :
  (forall l t o, l <> [] -> forallb is_modifier l = false ->
     target_truthy t = true \/ override_truthy o = true ->
     simplify_recipe env (Some (InList l)) t o = Err AttributeError) /\
  (forall r t d ds,
     simplify_recipe env (Some (InRecipe r)) t (Some (AList (d :: ds))) =
     Err TypeError).
Proof.
  split.
  - intros l t o Hne Hmod Htruthy.
    unfold simplify_recipe, prepare_recipe. rewrite Hmod.
    destruct l as [|x l]; [contradiction|]. cbn [bind].
    unfold filter_stages. destruct t as [t|].
    + destruct (target_truthy (Some t)) eqn:Et; [reflexivity|].
      cbn [bind]. destruct Htruthy as [H | H]; [discriminate|].
      unfold apply_overrides. destruct o as [o|]; [|discriminate].
      now rewrite H.
    + cbn [bind]. destruct Htruthy as [H | H]; [discriminate|].
      unfold apply_overrides. destruct o as [o|]; [|discriminate].
      now rewrite H.
  - intros r t d ds. unfold simplify_recipe, prepare_recipe. cbn [bind].
    unfold filter_stages. destruct t as [t|];
      [destruct (target_truthy (Some t))|]; reflexivity.
Qed.

Lemma simplify_recipe_errors_witness :
  simplify_recipe example_env (Some (InList [EStr "a.yaml"]))
    (Some (TList ["s1"])) None = Err AttributeError.
Proof.
  exact (proj1 (simplify_recipe_errors example_env) [EStr "a.yaml"]
           (Some (TList ["s1"])) None ltac:(discriminate) eq_refl
           (or_introl eq_refl)).
Defined.

(** ** One entry per stage *)

Lemma group_total_app (a b : list (string * list RecipeStage)) :
  group_total (a ++ b) = group_total a + group_total b.
Proof.
  unfold group_total. induction a as [|e a IH]; simpl; [reflexivity|].
  rewrite IH. lia.
Qed.

Lemma group_total_add (s : RecipeStage)
  (groups : list (string * list RecipeStage)) :
  group_total (group_add s groups) = S (group_total groups).
Proof.
  unfold group_add. destruct (dict_get (s_group s) groups) as [l|] eqn:E.
  - destruct (dict_set_split _ _ _ E) as (d1 & d2 & -> & Hset).
    rewrite Hset, !group_total_app. unfold group_total at 2 4.
    cbn [fold_right snd]. rewrite length_app. simpl. lia.
  - rewrite group_total_app. simpl. lia.
Qed.

Lemma group_total_grouped (ss : list RecipeStage) :
  group_total (grouped ss) = length ss.
Proof.
  induction ss as [|s ss IH] using rev_ind; [reflexivity|].
  rewrite grouped_snoc, group_total_add, IH, length_app. simpl. lia.
Qed.

Lemma length_writes (groups : list (string * list RecipeStage)) :
  length (writes groups) = group_total groups.
Proof.
  induction groups as [|[g l] groups IH]; [reflexivity|].
  cbn [writes flat_map]. fold (writes groups).
  rewrite length_app, length_map, IH. unfold enumerate.
  rewrite length_combine, length_seq, Nat.min_id. reflexivity.
Qed.

(** X18: serialization neither drops nor merges a stage: the emitted mapping
    has exactly one entry per stage besides the attributes, and its keys are
    pairwise distinct, also when stages share a group. *)
Theorem get_yaml_dict_one_entry_per_stage (r : Recipe) :
  exists yaml_dict,
    _get_yaml_dict r = Ok yaml_dict /\
    wf_dict yaml_dict /\
    length yaml_dict = length (attributes r) + length (stages r).
Proof.
  eexists. split; [apply get_yaml_dict_entries|].
  split; [apply get_yaml_dict_wf|].
  now rewrite length_app, length_writes, group_total_grouped.
Qed.

(** X19: combination stops at the first input that is not resolved to a
    Recipe: when the inputs before it resolve, a string that ingestion
    rejects makes the combination fail with the error of its ingestion, and a
    non-empty list that is not a list of Modifiers makes it fail with
    AttributeError, whatever follows. *)
Theorem simplify_combine_recipes_error (env : Env)
  (before : list RecipeInput) (rs : list Recipe) (rest : list RecipeInput) :
  Forall (fun i => declared_input i = true) before ->
  Forall2 (fun i r => create_instance env i None = Ok r) before rs ->
  (forall s e, create_instance env (InStr s) None = Err e ->
     simplify_combine_recipes env (before ++ InStr s :: rest) = Err e) /\
  (forall l, l <> [] -> forallb is_modifier l = false ->
     simplify_combine_recipes env (before ++ InList l :: rest) =
     Err AttributeError).
Proof.
  intros Hdecl Hres.
  assert (Hpre : forall i,
            simplify_combine_recipes env (before ++ i :: rest) =
            combined <- foldM (combine_step env) before empty_recipe ;;
            foldM (combine_step env) (i :: rest) combined).
  { intros i. unfold simplify_combine_recipes. rewrite Recipe_new_eq.
    cbn [bind]. apply foldM_app. }
  split.
  - intros s e He. rewrite Hpre, (combine_loop env before rs Hdecl Hres).
    cbn [bind foldM]. unfold combine_step at 1.
    unfold simplify_recipe, prepare_recipe. now rewrite He.
  - intros l Hne Hmod. rewrite Hpre, (combine_loop env before rs Hdecl Hres).
    cbn [bind foldM]. unfold combine_step at 1.
    unfold simplify_recipe, prepare_recipe. rewrite Hmod.
    destruct l; [contradiction | reflexivity].
Qed.

Lemma simplify_combine_recipes_error_witness :
  simplify_combine_recipes example_env
    ([InRecipe example_recipe] ++ InStr "lr: [" :: [InStr "{}"]) =
  Err ValueError.
Proof.
  refine (proj1 (simplify_combine_recipes_error example_env
                   [InRecipe example_recipe] [example_recipe] [InStr "{}"] _ _)
            "lr: [" ValueError eq_refl).
  - repeat constructor.
  - repeat constructor.
Defined.
